(** * The schema-driven CRUD table: store hook, table handlers, page handlers

    A shallow embedding of
      - [lib/hooks/useCrud]          (the remote collection store),
      - [components/forms/CrudTable] (submit and delete handlers),
      - [app/crud/page]              (the page's save and delete handlers),
      - [lib/utils/toast]            (the delete confirmation prompt),
      - [lib/config/*.config]        (the entity descriptors),
    followed by the properties of the save, delete and load paths.

    Modelling decisions.
      - A JavaScript object is the association list of its own properties in
        insertion order, which is the order [JSON.stringify] and object
        spread observe. Property values are strings and integers; numbers are
        printed in decimal.
      - An [async] function is a state transformer whose result is resolved
        or rejected; [await] sequences them, so calls in a [for] loop run one
        after the other.
      - The network and the clock are an oracle: it settles the n-th request
        and gives the reading of [Date.now()].
      - Formik appears through the form state it keeps ([values],
        [initialValues], [isSubmitting]), the helpers the handlers call
        ([resetForm], [push], [remove], [handleChange]) and the effect of
        [enableReinitialize]: the table hands Formik a fresh [{ items }] on
        each of its renders, and the form is reset to the store's list
        whenever the initial values it holds are no longer equal to it. A
        render of the table is due when its [items] prop or its own state
        changed, and takes place once the running handler waits for the
        network or has returned. Validation is not modelled. *)

From Stdlib Require Import ZArith Ascii String DecimalString DecimalZ.
From stdpp Require Import base option list strings sorting gmap.

Local Open Scope string_scope.
Local Open Scope list_scope.

#[local] Set Warnings "-clear-no-such-hyp".
#[local] Set Warnings "-register-all".

(** ** JavaScript values and flat objects *)

Inductive JsValue : Type :=
| JNum (n : Z)
| JStr (s : string).

#[global] Instance JsValue_eq_dec : EqDecision JsValue.
Proof. solve_decision. Defined.

(** Own enumerable properties, in insertion order. A well-formed object has
    no repeated key. *)
Abbreviation JsObject := (list (string * JsValue)).

Definition keys (o : JsObject) : list string := o.*1.

Definition wf_object (o : JsObject) : Prop := NoDup (keys o).

(** [o[k]]: [None] stands for [undefined]. *)
Fixpoint prop (k : string) (o : JsObject) : option JsValue :=
  match o with
  | [] => None
  | (k', v) :: o' => if decide (k' = k) then Some v else prop k o'
  end.

(** [o[k] = v] on a copy: an existing key keeps its position, a new key goes
    last. *)
Fixpoint set_prop (k : string) (v : JsValue) (o : JsObject) : JsObject :=
  match o with
  | [] => [(k, v)]
  | (k', v') :: o' =>
      if decide (k' = k) then (k', v) :: o' else (k', v') :: set_prop k v o'
  end.

(** [{ ...o, ...src }] *)
Definition spread (o src : JsObject) : JsObject :=
  foldl (fun acc kv => set_prop kv.1 kv.2 acc) o src.

(** [x === y] on property reads ([undefined], number or string). *)
Definition strict_eq (x y : option JsValue) : bool := bool_decide (x = y).

(** [item.id] *)
Definition id_of (o : JsObject) : option JsValue := prop "id" o.

(** The sentinel identifier of a record that was never persisted. *)
Definition SENTINEL : JsValue := JNum 0.

(** [item.id === 0] *)
Definition is_unpersisted (o : JsObject) : bool :=
  strict_eq (id_of o) (Some SENTINEL).

(** ** [JSON.stringify] on flat objects *)

Definition dquote : ascii := "034"%char.
Definition backslash : ascii := "092"%char.

Definition hex_digit (n : nat) : ascii :=
  nth n ["0"; "1"; "2"; "3"; "4"; "5"; "6"; "7";
         "8"; "9"; "a"; "b"; "c"; "d"; "e"; "f"]%char "0"%char.

(** One code unit of QuoteJSONString. *)
Definition escape_char (c : ascii) : string :=
  let n := nat_of_ascii c in
  if (n =? 8)%nat then String backslash "b"
  else if (n =? 9)%nat then String backslash "t"
  else if (n =? 10)%nat then String backslash "n"
  else if (n =? 12)%nat then String backslash "f"
  else if (n =? 13)%nat then String backslash "r"
  else if (n =? 34)%nat then String backslash (String dquote "")
  else if (n =? 92)%nat then String backslash (String backslash "")
  else if (n <? 32)%nat then
    String backslash
      ("u00" +:+ String (hex_digit (n / 16)) (String (hex_digit (n mod 16)) ""))
  else String c "".

Fixpoint escape (s : string) : string :=
  match s with
  | EmptyString => ""
  | String c s' => escape_char c +:+ escape s'
  end.

Definition QuoteJSONString (s : string) : string :=
  String dquote (escape s +:+ String dquote "").

(** Number::toString on an integer. *)
Definition NumberToString (n : Z) : string :=
  NilEmpty.string_of_int (Z.to_int n).

Definition SerializeJSONValue (v : JsValue) : string :=
  match v with
  | JNum n => NumberToString n
  | JStr s => QuoteJSONString s
  end.

Definition SerializeJSONMember (kv : string * JsValue) : string :=
  QuoteJSONString kv.1 +:+ ":" +:+ SerializeJSONValue kv.2.

Fixpoint SerializeJSONProperties (o : JsObject) : string :=
  match o with
  | [] => ""
  | kv :: o' =>
      match o' with
      | [] => SerializeJSONMember kv
      | _ :: _ => SerializeJSONMember kv +:+ "," +:+ SerializeJSONProperties o'
      end
  end.

Definition JSON_stringify (o : JsObject) : string :=
  "{" +:+ SerializeJSONProperties o +:+ "}".

(** [JSON.stringify(x)] where [x] may be [undefined]: the result is then
    [undefined] as well. *)
Definition JSON_stringify_opt (x : option JsObject) : option string :=
  JSON_stringify <$> x.


(** [arr[idx]] for a number [idx]; [None] is [undefined]. *)
Definition array_get {A} (arr : list A) (idx : Z) : option A :=
  if (0 <=? idx)%Z then arr !! Z.to_nat idx else None.

(** [String.prototype.toLowerCase] on ASCII letters. *)
Definition toLowerCase_char (c : ascii) : ascii :=
  let n := nat_of_ascii c in
  if ((65 <=? n) && (n <=? 90))%nat then ascii_of_nat (n + 32) else c.

Fixpoint toLowerCase (s : string) : string :=
  match s with
  | EmptyString => ""
  | String c s' => String (toLowerCase_char c) (toLowerCase s')
  end.

(** [s.slice(0, -1)] *)
Definition slice_0_m1 (s : string) : string :=
  substring 0 (String.length s - 1) s.

(** ** lib/types/crud and the entity descriptors *)

Inductive FieldType : Type := text | email | number | tel.

Record FieldConfig : Type := mkField {
  field_name : string;
  field_label : string;
  field_type : FieldType }.

(** [CrudConfig<T>]; the Yup validation schema plays no part in the handlers
    below and is left out. *)
Record CrudConfig : Type := mkConfig {
  name : string;
  fields : list FieldConfig;
  apiEndpoint : string;
  emptyItem : JsObject }.

Definition userConfig : CrudConfig := {|
  name := "Users";
  apiEndpoint := "users";
  emptyItem := [("id", JNum 0); ("name", JStr ""); ("email", JStr "");
                ("phone", JStr "")];
  fields := [mkField "name" "Name" text;
             mkField "email" "Email" email;
             mkField "phone" "Phone" tel] |}.

Definition productConfig : CrudConfig := {|
  name := "Products";
  apiEndpoint := "posts";
  emptyItem := [("id", JNum 0); ("name", JStr ""); ("price", JNum 0);
                ("stock", JNum 0)];
  fields := [mkField "name" "Product Name" text;
             mkField "price" "Price" number;
             mkField "stock" "Stock" number] |}.

(** ** The world outside: network, clock, notifications *)

Inductive Method : Type := GET | POST | PUT | DELETE.

Record Request : Type := mkRequest {
  method : Method;
  url : string;
  body : option string }.

#[global] Instance Method_eq_dec : EqDecision Method.
Proof. solve_decision. Defined.
#[global] Instance Request_eq_dec : EqDecision Request.
Proof. solve_decision. Defined.

(** What a [fetch] comes to: the promise rejects; or it resolves to a
    response from which no list can be read ([res.json()] rejects, or gives
    a value without [slice]: anything but an array or a string); or it
    resolves to a response whose JSON body is an array of flat objects. The
    status code is never read by the store. *)
Inductive Response : Type :=
| NetworkError
| Unreadable
| Responded (json : list JsObject).

#[global] Instance Response_eq_dec : EqDecision Response.
Proof. solve_decision. Defined.

(** The oracle: the fate of the n-th request issued, and the reading of
    [Date.now()] taken once n requests have been issued. *)
Record World : Type := mkWorld {
  respond : nat -> Response;
  Date_now : nat -> Z }.

Inductive Toast : Type :=
| toast_info (message : string)
| toast_success (message : string)
| toast_error (message : string)
| toast_confirm (message : string) (duration : nat).

(** The three ends of a confirmation prompt. *)
Inductive PromptOutcome : Type := ClickDelete | ClickCancel | Expired.

(** ** Component state

    [items], [loading], [error] are the [useState] cells of [useCrud];
    [values], [initialValues], [isSubmitting] are Formik's form state for the
    single form field [items]; [savingIndexes] is the cell of [CrudTable];
    [toasts] and [requests] record what was shown and what was sent. *)
Record State : Type := mkState {
  items : list JsObject;
  loading : bool;
  error : option string;
  values : list JsObject;
  initialValues : list JsObject;
  isSubmitting : bool;
  savingIndexes : gset Z;
  toasts : list Toast;
  requests : list Request }.

Definition setItems (f : list JsObject -> list JsObject) (st : State) : State :=
  mkState (f (items st)) (loading st) (error st) (values st)
          (initialValues st) (isSubmitting st) (savingIndexes st) (toasts st)
          (requests st).
Definition setLoading (b : bool) (st : State) : State :=
  mkState (items st) b (error st) (values st) (initialValues st)
          (isSubmitting st) (savingIndexes st) (toasts st) (requests st).
Definition setError (e : string) (st : State) : State :=
  mkState (items st) (loading st) (Some e) (values st) (initialValues st)
          (isSubmitting st) (savingIndexes st) (toasts st) (requests st).
Definition setValues (f : list JsObject -> list JsObject) (st : State) : State :=
  mkState (items st) (loading st) (error st) (f (values st))
          (initialValues st) (isSubmitting st) (savingIndexes st) (toasts st)
          (requests st).
Definition setSubmitting (b : bool) (st : State) : State :=
  mkState (items st) (loading st) (error st) (values st) (initialValues st)
          b (savingIndexes st) (toasts st) (requests st).
Definition setSavingIndexes (f : gset Z -> gset Z) (st : State) : State :=
  mkState (items st) (loading st) (error st) (values st) (initialValues st)
          (isSubmitting st) (f (savingIndexes st)) (toasts st) (requests st).
Definition toast (t : Toast) (st : State) : State :=
  mkState (items st) (loading st) (error st) (values st) (initialValues st)
          (isSubmitting st) (savingIndexes st) (toasts st ++ [t]) (requests st).

(** Formik's [resetForm({ values })]: the given values become both the
    current values and the initial values the form's [dirty] flag is taken
    against, and the form is no longer submitting. *)
Definition resetForm (vals : list JsObject) (st : State) : State :=
  mkState (items st) (loading st) (error st) vals vals false
          (savingIndexes st) (toasts st) (requests st).

(** The comparison Formik uses (react-fast-compare): arrays element by
    element, objects by their own keys, whatever the order of the keys. *)
Definition isEqual_object (a b : JsObject) : bool :=
  bool_decide (List.length (keys a) = List.length (keys b))
  && forallb (fun k => bool_decide (k ∈ keys b)
                       && bool_decide (prop k a = prop k b)) (keys a).

Fixpoint isEqual (a b : list JsObject) : bool :=
  match a, b with
  | [], [] => true
  | x :: a', y :: b' => isEqual_object x y && isEqual a' b'
  | _, _ => false
  end.

(** Formik's [dirty]: the values differ from the initial values. *)
Definition dirty (st : State) : bool :=
  negb (isEqual (initialValues st) (values st)).

(** The effect of [enableReinitialize], run after every render of the table
    ([initialValues={{ items }}] is a fresh object each time): when the
    initial values the form holds are not equal to the store's list, the form
    is reset to that list. *)
Definition reinitialize (st : State) : State :=
  if isEqual (initialValues st) (items st) then st
  else resetForm (items st) st.

(** The first render of the table: the form starts from
    [initialValues={{ items }}]. *)
Definition mountTable (st : State) : State := resetForm (items st) st.

(** A settled promise of an [async] function, with the state it left. *)
Inductive Outcome : Type :=
| Resolved (st : State)
| Rejected (st : State).

Definition state_of (o : Outcome) : State :=
  match o with Resolved st | Rejected st => st end.

Definition is_resolved (o : Outcome) : bool :=
  match o with Resolved _ => true | Rejected _ => false end.

(** [await p; k] *)
Definition await (p : Outcome) (k : State -> Outcome) : Outcome :=
  match p with
  | Resolved st => k st
  | Rejected st => Rejected st
  end.

(** [fetch(url, init)]: the request goes out; the oracle settles it. *)
Definition fetch (w : World) (rq : Request) (st : State) : State * Response :=
  (mkState (items st) (loading st) (error st) (values st) (initialValues st)
           (isSubmitting st) (savingIndexes st) (toasts st)
           (requests st ++ [rq]),
   respond w (List.length (requests st))).

(** [`${x}`] for a property read. *)
Definition ToString (x : option JsValue) : string :=
  match x with
  | None => "undefined"
  | Some (JNum n) => NumberToString n
  | Some (JStr s) => s
  end.

(** ** lib/hooks/useCrud: the remote collection store *)

Definition API_URL : string := "https://jsonplaceholder.typicode.com".

Section useCrud.
Variable w : World.
Variable endpoint : string.

(** [transformer ? transformer(data) : data.slice(0, 5)]; a transformer
    gives [None] when it throws. *)
Definition transformed
    (transformer : option (list JsObject -> option (list JsObject)))
    (data : list JsObject) : option (list JsObject) :=
  match transformer with
  | Some f => f data
  | None => Some (take 5 data)
  end.

(** The effect run on mount. Whatever throws inside the [try] (the fetch,
    [res.json()], [data.slice], the transformer) ends in the error state. *)
Definition fetchItems
    (transformer : option (list JsObject -> option (list JsObject)))
    (st : State) : State :=
  let '(st1, res) :=
    fetch w (mkRequest GET (API_URL +:+ "/" +:+ endpoint) None) st in
  let st2 :=
    match res with
    | Responded data =>
        match transformed transformer data with
        | Some its => setItems (fun _ => its) st1
        | None => setError "Failed to fetch" st1
        end
    | NetworkError | Unreadable => setError "Failed to fetch" st1
    end in
  setLoading false st2.

Definition createItem (item : JsObject) (st : State) : Outcome :=
  let '(st1, res) :=
    fetch w (mkRequest POST (API_URL +:+ "/" +:+ endpoint)
                       (Some (JSON_stringify item))) st in
  match res with
  | NetworkError => Rejected st1
  | Unreadable | Responded _ =>
      let now := Date_now w (List.length (requests st1)) in
      Resolved
        (setItems (fun prev => prev ++ [set_prop "id" (JNum now) item]) st1)
  end.

Definition updateItem (id : option JsValue) (item : JsObject) (st : State)
    : Outcome :=
  let '(st1, res) :=
    fetch w (mkRequest PUT
               (API_URL +:+ "/" +:+ endpoint +:+ "/" +:+ ToString id)
               (Some (JSON_stringify item))) st in
  match res with
  | NetworkError => Rejected st1
  | Unreadable | Responded _ =>
      Resolved
        (setItems
           (fun prev =>
              (fun i => if strict_eq (id_of i) id then spread i item else i)
                <$> prev) st1)
  end.

Definition deleteItem (id : option JsValue) (st : State) : Outcome :=
  let '(st1, res) :=
    fetch w (mkRequest DELETE
               (API_URL +:+ "/" +:+ endpoint +:+ "/" +:+ ToString id)
               None) st in
  match res with
  | NetworkError => Rejected st1
  | Unreadable | Responded _ =>
      Resolved
        (setItems
           (fun prev =>
              filter (fun i => negb (strict_eq (id_of i) id) = true) prev)
           st1)
  end.

(** ** app/crud/page: the save and delete handlers handed to the table

    [handleSaveUsers] and [handleSaveProducts] are the same loop over their
    own store; [user.id] on a missing element is a TypeError. *)
Fixpoint handleSave (its : list JsObject) (dirtyIndexes : list Z)
    (st : State) : Outcome :=
  match dirtyIndexes with
  | [] => Resolved st
  | idx :: rest =>
      match array_get its idx with
      | None => Rejected st
      | Some user =>
          await (if is_unpersisted user
                 then createItem user st
                 else updateItem (id_of user) user st)
                (handleSave its rest)
      end
  end.

Definition handleDeleteItem (id : option JsValue) (st : State) : Outcome :=
  deleteItem id st.
End useCrud.

(** ** lib/utils/toast: the confirmation prompt

    The prompt is shown for 5000 ms; only its Delete button runs
    [onConfirm], the Cancel button runs the empty function, and expiry runs
    nothing. The call shows the prompt and returns; what the end of the
    prompt runs, it runs on the state of the page at that later time. *)
Abbreviation Prompt := (PromptOutcome -> State -> Outcome).

Definition confirmDelete (message : string) (onConfirm : State -> Outcome)
    (st : State) : State * Prompt :=
  (toast (toast_confirm message 5000) st,
   fun end_of_prompt st' =>
     match end_of_prompt with
     | ClickDelete => onConfirm st'
     | ClickCancel => Resolved st'
     | Expired => Resolved st'
     end).

(** ** components/forms/CrudTable *)

Section CrudTable.
(** The props of the component. *)
Variable config : CrudConfig.
Variable props_items : list JsObject.
Variable onSave : list JsObject -> list Z -> State -> Outcome.
Variable onDelete : option JsValue -> State -> Outcome.

(** [JSON.stringify(item) !== JSON.stringify(items[idx])] *)
Definition differs (item : JsObject) (idx : nat) : bool :=
  negb (bool_decide (JSON_stringify_opt (Some item)
                     = JSON_stringify_opt (props_items !! idx))).

(** [values.items.map((item, idx) => ... ? idx : -1).filter(idx => idx !== -1)] *)
Definition dirtyIndexes (vals : list JsObject) : list Z :=
  filter (fun idx => idx ≠ (-1)%Z)
    (imap (fun idx item =>
             if is_unpersisted item || differs item idx
             then Z.of_nat idx else (-1)%Z) vals).

(** The [for (const idx of dirtyIndexes)] loop. The one-element array
    [[values.items[idx]]] holds [undefined] when [idx] is out of range, and
    reading index 0 of it then gives [undefined], as reading index 0 of the
    empty list does here. [setSavingIndexes] was called before each
    [await], so a render of the table is due and takes place while the call
    is awaited. *)
Fixpoint save_rows (vals : list JsObject) (idxs : list Z) (st : State)
    : Outcome :=
  match idxs with
  | [] => Resolved st
  | idx :: rest =>
      await (onSave (option_list (array_get vals idx)) [0%Z] (reinitialize st))
        (fun st1 =>
           save_rows vals rest
             (setSavingIndexes (fun prev => prev ∖ {[ idx ]}) st1))
  end.

(** On the early return nothing of the table has changed and it does not
    render again; otherwise [setSavingIndexes] was called, and the table
    renders once more after the handler has returned. *)
Definition handleSubmit (vals : list JsObject) (st : State) : State :=
  let dirtyIndexes := dirtyIndexes vals in
  if bool_decide (List.length dirtyIndexes = 0%nat) then
    setSubmitting false (setSubmitting false
      (toast (toast_info "No changes to save") st))
  else
    let st1 := setSavingIndexes (fun _ => list_to_set dirtyIndexes) st in
    let st2 :=
      match save_rows vals dirtyIndexes st1 with
      | Resolved st' =>
          toast (toast_success
                   ("Saved "
                    +:+ NumberToString (Z.of_nat (List.length dirtyIndexes))
                    +:+ " item(s)"))
                (resetForm vals st')
      | Rejected st' =>
          setSavingIndexes (fun _ => ∅)
            (toast (toast_error "Failed to save") st')
      end in
    reinitialize (setSubmitting false st2).

(** FieldArray's [push] and [remove]. *)
Definition push (item : JsObject) (st : State) : State :=
  setValues (fun vs => vs ++ [item]) st.

Definition remove (index : nat) (st : State) : State :=
  setValues (delete index) st.

(** [item] and [index] are those of the row as rendered when its button was
    clicked. After a settled [onDelete] the page holds a new [items], so the
    table renders again once the handler has returned; [remove] alone
    changes the form only, and the table does not render. *)
Definition handleDelete (item : JsObject) (remove : nat -> State -> State)
    (index : nat) (st : State) : State * Prompt :=
  confirmDelete
    ("Delete this " +:+ slice_0_m1 (toLowerCase (name config)) +:+ "?")
    (fun st0 =>
       if negb (strict_eq (id_of item) (Some SENTINEL))
       then await (onDelete (id_of item) st0)
                  (fun st1 => Resolved (reinitialize (remove index st1)))
       else Resolved (remove index st0))
    st.

(** The Add Row button: [push(config.emptyItem)]. *)
Definition addRow (st : State) : State := push (emptyItem config) st.

(** Formik's [handleChange] on the input named [items[index].field]: the
    row renderer creates inputs for existing rows only, so an event for a
    missing row does not occur. *)
Definition handleChange (index : nat) (field : string) (v : JsValue)
    (st : State) : option State :=
  match values st !! index with
  | None => None
  | Some _ => Some (setValues (alter (set_prop field v) index) st)
  end.
End CrudTable.

(** ** The mounted page: one table over one store *)

Section Page.
Variable w : World.
Variable config : CrudConfig.

(** Formik's [handleSubmit]: the form is marked submitting and [onSubmit]
    receives the current values; the [items] prop is the store's list as
    rendered. *)
Definition save (st : State) : State :=
  handleSubmit (items st) (handleSave w (apiEndpoint config))
    (values st) (setSubmitting true st).

(** Clicking the delete button of the row rendered at [index]: the prompt
    is shown, and its end is pending. *)
Definition clickDelete (index : nat) (st : State) : option (State * Prompt) :=
  match values st !! index with
  | None => None
  | Some item =>
      Some (handleDelete config (handleDeleteItem w (apiEndpoint config))
              item remove index st)
  end.

(** The click, and the end of the prompt with nothing happening to the page
    in between. *)
Definition deleteRow (index : nat) (end_of_prompt : PromptOutcome)
    (st : State) : option Outcome :=
  match clickDelete index st with
  | None => None
  | Some (st1, prompt) => Some (prompt end_of_prompt st1)
  end.

Definition appendRow (st : State) : State := addRow config st.

Definition editField (index : nat) (field : string) (v : JsValue)
    (st : State) : option State :=
  handleChange index field v st.

(** [load()]: the mount effect of the store. *)
Definition load
    (transformer : option (list JsObject -> option (list JsObject)))
    (st : State) : State :=
  fetchItems w (apiEndpoint config) transformer st.
End Page.

(** The state of a freshly mounted page. *)
Definition initial_state : State :=
  mkState [] true None [] [] false ∅ [] [].


(** * Auxiliary notions used in the statements and proofs *)

(** Two strings agree as far as the shorter one goes. *)
Fixpoint compatible (a b : string) : bool :=
  match a, b with
  | String x a', String y b' => bool_decide (x = y) && compatible a' b'
  | _, _ => true
  end.

Definition all_ascii : list ascii := ascii_of_nat <$> seq 0 256.

Definition escape_code_ok (c1 c2 : ascii) : bool :=
  implb (compatible (escape_char c1) (escape_char c2)) (bool_decide (c1 = c2)).

Definition starts_plain (s : string) : bool :=
  match s with
  | String x _ => negb (bool_decide (x = dquote))
  | EmptyString => false
  end.

(** Characters a printed integer is made of. *)
Definition is_num_char (c : ascii) : bool :=
  bool_decide (c ∈ ["0"; "1"; "2"; "3"; "4"; "5"; "6"; "7"; "8"; "9"; "-"]%char).

Fixpoint str_all (P : ascii -> bool) (s : string) : bool :=
  match s with
  | EmptyString => true
  | String c s' => P c && str_all P s'
  end.

(** What may follow a member's value in an object: a comma or the closing
    brace. *)
Definition delimited (t : string) : Prop :=
  exists t', t = "," +:+ t' \/ t = "}" +:+ t'.

(** The text of a non-empty property list, followed by [t]. *)
Definition after_member (o : JsObject) (t : string) : string :=
  match o with
  | [] => t
  | _ :: _ => "," +:+ SerializeJSONProperties o +:+ t
  end.


(** A buffer row is dirty at index [i] against the snapshot [its]: it carries
    the sentinel identifier, or it is not the snapshot's row at [i]. *)
Definition row_dirty (its : list JsObject) (i : nat) (row : JsObject) : Prop :=
  id_of row = Some SENTINEL \/ its !! i <> Some row.

#[global] Instance row_dirty_dec its i row : Decision (row_dirty its i row).
Proof. unfold row_dirty. apply _. Defined.

(** A snapshot row and a buffer row stand for the same record: same
    identifier, same keys in the same order. *)
Definition aligned (s v : JsObject) : Prop :=
  id_of s = id_of v /\ keys s = keys v /\ wf_object s.

(** The request the page handler sends for a row. *)
Definition request_for (endpoint : string) (user : JsObject) : Request :=
  if is_unpersisted user
  then mkRequest POST (API_URL +:+ "/" +:+ endpoint)
         (Some (JSON_stringify user))
  else mkRequest PUT
         (API_URL +:+ "/" +:+ endpoint +:+ "/" +:+ ToString (id_of user))
         (Some (JSON_stringify user)).

(** What the store's list becomes when the call for a row settles, [now]
    being the clock reading. *)
Definition store_effect (now : Z) (user : JsObject) (prev : list JsObject)
    : list JsObject :=
  if is_unpersisted user
  then prev ++ [set_prop "id" (JNum now) user]
  else (fun i => if strict_eq (id_of i) (id_of user) then spread i user else i)
         <$> prev.

(** Number of rows whose call settles before the first rejection, the calls
    being requests [n], [n+1], ... *)
Fixpoint settled (w : World) (n : nat) (rows : list JsObject) : nat :=
  match rows with
  | [] => 0
  | _ :: rest =>
      match respond w n with
      | NetworkError => 0
      | Unreadable | Responded _ => S (settled w (S n) rest)
      end
  end.

(** The store's list after the calls for the first [k] rows settled. *)
Fixpoint persisted (w : World) (n : nat) (k : nat) (rows : list JsObject)
    (its : list JsObject) : list JsObject :=
  match k, rows with
  | S k', row :: rest =>
      persisted w (S n) k' rest (store_effect (Date_now w (S n)) row its)
  | _, _ => its
  end.

(** The call the page handler makes for a row. *)
Definition persist_row (w : World) (endpoint : string) (user : JsObject)
    (st : State) : Outcome :=
  if is_unpersisted user
  then createItem w endpoint user st
  else updateItem w endpoint (id_of user) user st.

(** The buffer rows standing at the dirty indexes, in order. *)
Definition dirtyRows (its vals : list JsObject) : list JsObject :=
  omap (array_get vals) (dirtyIndexes its vals).

(** Every one of the [k] requests issued from request number [n] on is
    answered. *)
Definition all_settle (w : World) (n k : nat) : Prop :=
  forall j, (j < k)%nat -> respond w (n + j) <> NetworkError.

(** The first [j] requests from number [n] on are answered and the next one
    throws. *)
Definition throws_at (w : World) (n j : nat) : Prop :=
  all_settle w n j /\ respond w (n + j) = NetworkError.

(** The form's values and initial values after a render of the table that
    sees the store's list [its]. *)
Definition reseed (its : list JsObject)
    (f : list JsObject * list JsObject) : list JsObject * list JsObject :=
  if isEqual f.2 its then f else (its, its).

(** The form's values and initial values when the save loop stops, [k] of
    its calls having settled: a render precedes every call. *)
Fixpoint rendered (w : World) (n : nat) (k : nat) (rows : list JsObject)
    (its : list JsObject) (f : list JsObject * list JsObject) {struct rows}
    : list JsObject * list JsObject :=
  match rows with
  | [] => f
  | row :: rest =>
      match k with
      | 0 => reseed its f
      | S k' =>
          rendered w (S n) k' rest (store_effect (Date_now w (S n)) row its)
                   (reseed its f)
      end
  end.


(** The snapshot [h] tracks the buffer: its identifiers are pairwise distinct
    and every persisted buffer row faces, at its own index, a snapshot row
    for the same record. *)
Definition tracks (vals h : list JsObject) : Prop :=
  NoDup (id_of <$> h)
  /\ forall i row, vals !! i = Some row -> id_of row <> Some SENTINEL ->
       exists c, h !! i = Some c /\ aligned c row.

(** Every persisted buffer row faces, at its own index, a snapshot row with
    the same keys in the same order. *)
Definition faces (vals h : list JsObject) : Prop :=
  forall i row, vals !! i = Some row -> id_of row <> Some SENTINEL ->
    exists c, h !! i = Some c /\ keys c = keys row /\ wf_object c.

(** The invariant of the displayed collection: persisted records (identifier
    other than the sentinel) have pairwise distinct identifiers. *)
Definition unique_persisted (its : list JsObject) : Prop :=
  NoDup (filter (fun x => x <> Some SENTINEL) (id_of <$> its)).

(** The store's list holds no record carrying the sentinel. *)
Definition all_persisted (its : list JsObject) : Prop :=
  Forall (fun r => id_of r <> Some SENTINEL) its.

(** ** Scenarios *)

Definition recordA : JsObject := [("id", JNum 1); ("name", JStr "A")].
Definition recordB : JsObject := [("id", JNum 2); ("name", JStr "B")].
Definition recordA2 : JsObject := [("id", JNum 1); ("name", JStr "A2")].
Definition draftX : JsObject := [("id", JNum 0); ("name", JStr "X")].
Definition draftY : JsObject := [("id", JNum 0); ("name", JStr "Y")].

(** Two users as the table's schema accepts them, and edits of their names. *)
Definition ann : JsObject :=
  [("id", JNum 1); ("name", JStr "Ann Lee"); ("email", JStr "ann@example.com");
   ("phone", JStr "555-0101")].
Definition bob : JsObject :=
  [("id", JNum 2); ("name", JStr "Bob Ray"); ("email", JStr "bob@example.com");
   ("phone", JStr "555-0102")].
Definition ann_edited : JsObject := set_prop "name" (JStr "Ann Leigh") ann.
Definition bob_edited : JsObject := set_prop "name" (JStr "Bob Rae") bob.

(** A new user, as typed into an added row. *)
Definition cara_draft : JsObject :=
  [("id", JNum 0); ("name", JStr "Cara Im"); ("email", JStr "cara@example.com");
   ("phone", JStr "555-0103")].


(** A page whose store holds [its] and whose form shows [vals]. *)
Definition mounted (its vals : list JsObject) : State :=
  mkState its false None vals its false ∅ [] [].

(** Every request is answered; the clock advances with every request. *)
Definition world_up : World :=
  mkWorld (fun _ => Responded []) (fun n => (1700000000000 + Z.of_nat n)%Z).

(** Every request is answered; the clock reads the same millisecond. *)
Definition world_same_ms : World :=
  mkWorld (fun _ => Responded []) (fun _ => 1700000000000%Z).

(** The second request throws. *)
Definition world_second_throws : World :=
  mkWorld (fun n => if (n =? 1)%nat then NetworkError else Responded [])
          (fun n => (1700000000000 + Z.of_nat n)%Z).

(** Every request throws. *)
Definition world_down : World :=
  mkWorld (fun _ => NetworkError) (fun n => (1700000000000 + Z.of_nat n)%Z).

(** The server answers the list request with seven records. *)
Definition seven : list JsObject :=
  (fun k => [("id", JNum (Z.of_nat k))]) <$> seq 1 7.
Definition world_seven : World :=
  mkWorld (fun _ => Responded seven) (fun n => (1700000000000 + Z.of_nat n)%Z).

(** * The rest of the table and of the page *)

(** [key={item.id || index}] of a rendered row, as React keeps it: the
    string of the identifier when that is truthy, of the index otherwise. *)
Definition row_key (item : JsObject) (index : nat) : string :=
  match id_of item with
  | Some (JNum n) =>
      if bool_decide (n = 0%Z) then NumberToString (Z.of_nat index)
      else NumberToString n
  | Some (JStr s) =>
      if bool_decide (s = "") then NumberToString (Z.of_nat index) else s
  | None => NumberToString (Z.of_nat index)
  end.

(** The keys of the rows [values.items.map((item, index) => ...)] renders. *)
Definition row_keys (vals : list JsObject) : list string :=
  imap (fun index item => row_key item index) vals.

(** What [CrudPage] returns. *)
Inductive PageView : Type :=
| ViewLoading
| ViewError (message : string)
| ViewTabs.

(** Truthiness of [string | null]. *)
Definition truthy_string (s : option string) : bool :=
  match s with
  | Some s => negb (bool_decide (s = ""))
  | None => false
  end.

(** [usersError || productsError] *)
Definition or_string (a b : option string) : option string :=
  if truthy_string a then a else b.

(** The two early returns of [CrudPage], over the state of its two stores. *)
Definition CrudPage_view (users products : State) : PageView :=
  if loading users || loading products then ViewLoading
  else
    match or_string (error users) (error products) with
    | Some message =>
        if truthy_string (Some message) then ViewError message else ViewTabs
    | None => ViewTabs
    end.

(** The list a load leaves in the store, if it leaves one: the request,
    numbered [n], is answered with an array and the transformer returns. *)
Definition loaded_list (w : World) (n : nat)
    (transformer : option (list JsObject -> option (list JsObject)))
    : option (list JsObject) :=
  match respond w n with
  | Responded data => transformed transformer data
  | NetworkError | Unreadable => None
  end.

(** [method] is one of the two the save handler uses. *)
Definition is_POST (rq : Request) : bool := bool_decide (method rq = POST).

(** ** lib/utils/formik and the error cell of CrudTableRow *)

(** An entry of a Formik errors object: a message, or the errors of a nested
    value. *)
Inductive FieldError : Type :=
| ErrorMessage (s : string)
| ErrorNested.

Abbreviation ItemErrors := (gmap string FieldError).
Abbreviation ItemTouched := (gmap string bool).

(** [arr?.[index]] on an array that may hold [undefined]. *)
Definition optional_index {A} (arr : option (list (option A))) (index : nat)
    : option A :=
  match arr with
  | None => None
  | Some a =>
      match a !! index with
      | Some (Some x) => Some x
      | _ => None
      end
  end.

Definition getFieldError (errors : option (list (option ItemErrors)))
    (touched : option (list (option ItemTouched))) (index : nat)
    (fieldName : string) : option string :=
  match optional_index errors index, optional_index touched index with
  | Some itemErrors, Some itemTouched =>
      let error := itemErrors !! fieldName in
      let isTouched := itemTouched !! fieldName in
      match isTouched, error with
      | Some true, Some (ErrorMessage s) => Some s
      | _, _ => None
      end
  | _, _ => None
  end.

(** [!!getFieldError(...)]: the empty message is falsy. *)
Definition hasFieldError (errors : option (list (option ItemErrors)))
    (touched : option (list (option ItemTouched))) (index : nat)
    (fieldName : string) : bool :=
  match getFieldError errors touched index fieldName with
  | Some s => negb (bool_decide (s = ""))
  | None => false
  end.

(** [errors.items] and [touched.items] as the row reads them: an array, or
    anything else (absent, a message for the whole array, a flag). *)
Inductive FormikArray (A : Type) : Type :=
| NotAnArray
| IsArray (l : list (option A)).
Arguments NotAnArray {A}.
Arguments IsArray {A} l.

(** [Array.isArray(x) ? x[index] : undefined] *)
Definition array_item {A} (x : FormikArray A) (index : nat) : option A :=
  match x with
  | NotAnArray => None
  | IsArray l => optional_index (Some l) index
  end.

Definition FieldError_truthy (e : FieldError) : bool :=
  match e with
  | ErrorMessage s => negb (bool_decide (s = ""))
  | ErrorNested => true
  end.

(** [fieldError] of [CrudTableRow]:
    [itemTouched?.[name] && itemErrors?.[name] ? itemErrors[name] : undefined] *)
Definition row_fieldError (errors_items : FormikArray ItemErrors)
    (touched_items : FormikArray ItemTouched) (index : nat)
    (fieldName : string) : option FieldError :=
  let itemErrors := array_item errors_items index in
  let itemTouched := array_item touched_items index in
  match itemTouched ≫= (fun t => t !! fieldName),
        itemErrors ≫= (fun e => e !! fieldName) with
  | Some true, Some e => if FieldError_truthy e then Some e else None
  | _, _ => None
  end.

(** ** JSON values of the route handlers *)

Inductive Json : Type :=
| JsonNull
| JsonBool (b : bool)
| JsonNumber (n : Z)
| JsonString (s : string)
| JsonArray (l : list Json)
| JsonObject (o : gmap string Json).

Definition Json_truthy (j : Json) : bool :=
  match j with
  | JsonNull => false
  | JsonBool b => b
  | JsonNumber n => negb (bool_decide (n = 0%Z))
  | JsonString s => negb (bool_decide (s = ""))
  | JsonArray _ | JsonObject _ => true
  end.

(** The own enumerable properties object destructuring sees: [None] for
    [null], whose destructuring throws; the indexed elements of a string or
    an array; nothing for a number or a boolean. *)
Definition own_properties (j : Json) : option (gmap string Json) :=
  match j with
  | JsonNull => None
  | JsonBool _ | JsonNumber _ => Some ∅
  | JsonString s =>
      Some (list_to_map
              (imap (fun i c => (NumberToString (Z.of_nat i),
                                 JsonString (String c "")))
                    (list_ascii_of_string s)))
  | JsonArray l =>
      Some (list_to_map (imap (fun i x => (NumberToString (Z.of_nat i), x)) l))
  | JsonObject o => Some o
  end.

(** ** The cookie routes (set-cookies, clear-cookies) *)

Inductive SameSite : Type := Strict | Lax | NoneSite.

Record Cookie : Type := mkCookie {
  cookie_value : Json;
  httpOnly : bool;
  secure : bool;
  sameSite : SameSite;
  cookie_path : string;
  maxAge : Z }.

Abbreviation CookieJar := (gmap string Cookie).

(** [NextResponse.json(body, { status })] *)
Record RouteResponse : Type := mkRouteResponse {
  response_status : nat;
  response_json : gmap string Json }.

(** [process.env.NODE_ENV === 'production'] *)
Definition in_production (NODE_ENV : option string) : bool :=
  bool_decide (NODE_ENV = Some "production").

(** The refresh-token cookie the set-cookies route writes. *)
Definition refresh_cookie (NODE_ENV : option string) (token : Json) : Cookie :=
  mkCookie token true (in_production NODE_ENV) Strict "/"
           (60 * 60 * 24 * 30)%Z.

(** [POST] of the set-cookies route. [body] is what [req.json()] resolves to,
    [None] when it rejects. *)
Definition set_cookies_POST (NODE_ENV : option string) (body : option Json)
    (jar : CookieJar) : CookieJar * RouteResponse :=
  match body ≫= own_properties with
  | Some props =>
      let refreshToken := props !! "refreshToken" in
      let rest := delete "refreshToken" props in
      let jar' :=
        match refreshToken with
        | Some token =>
            if Json_truthy token
            then <["refresh_token" := refresh_cookie NODE_ENV token]> jar
            else jar
        | None => jar
        end in
      (jar',
       mkRouteResponse 200
         (rest ∪ {[ "success" := JsonBool true;
                    "message" := JsonString "Cookies set successfully" ]}))
  | None =>
      (jar,
       mkRouteResponse 500
         {[ "success" := JsonBool false;
            "message" := JsonString "Failed to set cookies" ]})
  end.

(** [POST] of the clear-cookies route. *)
Definition clear_cookies_POST (NODE_ENV : option string) (jar : CookieJar)
    : CookieJar * RouteResponse :=
  (<["refresh_token" :=
       mkCookie (JsonString "") true (in_production NODE_ENV) Strict "/" 0]>
     jar,
   mkRouteResponse 200
     {[ "success" := JsonBool true;
        "message" := JsonString "Cookies cleared successfully" ]}).

(** ** The GraphQL proxy route *)

Definition PROTECTED_OPERATIONS : list string :=
  ["Me"; "UpdateProfile"; "CompleteProfile"; "ListUsers"].

(** The request the proxy sends upstream; its method is POST. *)
Record UpstreamCall : Type := mkUpstreamCall {
  call_uri : string;
  call_headers : gmap string string;
  call_body : string }.

(** The upstream [fetch] and [response.text()]: either throws, or gives a
    status and a text. *)
Inductive UpstreamResult : Type :=
| UpstreamThrows
| UpstreamResponds (code : nat) (payload : string).

Inductive ProxyBody : Type :=
| ErrorsBody (message : string)
| TextBody (payload : string).

Record ProxyResponse : Type := mkProxyResponse {
  proxy_status : nat;
  proxy_body : ProxyBody }.

(** Truthiness of [string | undefined] and [string | null]. *)
Definition nonempty (s : option string) : bool := truthy_string s.

(** [body.operationName]: [None] when reading it throws ([body] is [null]),
    [Some None] when it is [undefined]. *)
Definition operationName_of (body : Json) : option (option Json) :=
  match body with
  | JsonNull => None
  | JsonObject o => Some (o !! "operationName")
  | _ => Some None
  end.

(** [PROTECTED_OPERATIONS.includes(x)] *)
Definition protected_includes (x : Json) : bool :=
  match x with
  | JsonString s => bool_decide (s ∈ PROTECTED_OPERATIONS)
  | _ => false
  end.

(** The conditions under which the proxy forwards the caller's token: a
    non-empty [authorization] header and a protected operation name. *)
Definition forwards_token (authorization : option string) (b : Json) : Prop :=
  exists a s, authorization = Some a /\ a <> ""
              /\ operationName_of b = Some (Some (JsonString s))
              /\ s ∈ PROTECTED_OPERATIONS.

(** [new NextResponse(data, { status })] is a [Response]: its constructor
    throws for a status outside 200..599 and, the body not being [null], for
    a null-body status. *)
Definition null_body_status (code : nat) : bool :=
  bool_decide (code ∈ [101; 103; 204; 205; 304]%nat).

Definition Response_constructible (code : nat) : bool :=
  (200 <=? code)%nat && (code <=? 599)%nat && negb (null_body_status code).

Section graphql_proxy.
(** [JSON.stringify] of the parsed body, and the upstream server. *)
Variable JSON_text : Json -> string.
Variable upstream : UpstreamCall -> UpstreamResult.

Definition graphql_POST (GRAPHQL_URI GRAPHQL_API_KEY : option string)
    (body : option Json) (authorization : option string)
    : option UpstreamCall * ProxyResponse :=
  match GRAPHQL_URI, GRAPHQL_API_KEY with
  | Some graphqlUri, Some graphqlApiKey =>
      if negb (nonempty (Some graphqlUri))
         || negb (nonempty (Some graphqlApiKey))
      then (None, mkProxyResponse 500 (ErrorsBody "Server configuration error"))
      else
        match body ≫= (fun b => pair b <$> operationName_of b) with
        | None =>
            (None, mkProxyResponse 500 (ErrorsBody "Internal server error"))
        | Some (b, operationName) =>
            let headers : gmap string string :=
              {[ "Content-Type" := "application/json" ]} in
            let headers :=
              if nonempty authorization
                 && from_option Json_truthy false operationName
                 && from_option protected_includes false operationName
              then <["Authorization" := default "" authorization]> headers
              else <["x-api-key" := graphqlApiKey]> headers in
            let call := mkUpstreamCall graphqlUri headers (JSON_text b) in
            match upstream call with
            | UpstreamResponds code payload =>
                if Response_constructible code
                then (Some call, mkProxyResponse code (TextBody payload))
                else (Some call,
                      mkProxyResponse 500 (ErrorsBody "Internal server error"))
            | UpstreamThrows =>
                (Some call,
                 mkProxyResponse 500 (ErrorsBody "Internal server error"))
            end
        end
  | _, _ =>
      (None, mkProxyResponse 500 (ErrorsBody "Server configuration error"))
  end.
End graphql_proxy.

(** ** apollo/apolloClient: the link of the server-side client *)

Definition PROXY_PATH : string := "/api/graphql".

(** The [uri] and [headers] handed to [HttpLink]. *)
Definition server_link (NODE_ENV GRAPHQL_URI GRAPHQL_API_KEY : option string)
    : string * gmap string string :=
  let uri :=
    if in_production NODE_ENV then PROXY_PATH
    else if nonempty GRAPHQL_URI then default "" GRAPHQL_URI else PROXY_PATH in
  let headers : gmap string string :=
    {[ "Content-Type" := "application/json" ]} in
  let headers :=
    if negb (bool_decide (uri = PROXY_PATH)) && nonempty GRAPHQL_API_KEY
    then <["x-api-key" := default "" GRAPHQL_API_KEY]> headers
    else headers in
  (uri, headers).

(** ** apollo/apolloClient: the error link of the browser client *)

(** [s.includes(needle)] *)
Fixpoint includes (needle s : string) : bool :=
  String.prefix needle s
  || match s with
     | EmptyString => false
     | String _ s' => includes needle s'
     end.

Record GraphQLError : Type := mkGraphQLError {
  err_message : option string;
  err_code : option string }.

(** A result handed to [next]: [result_errors] is [None] unless
    [result.errors] is an array. *)
Record OperationResult : Type := mkResult {
  result_errors : option (list GraphQLError);
  result_data : option Json }.

Definition is_auth_error (err : GraphQLError) : bool :=
  bool_decide (err_code err = Some "UNAUTHENTICATED")
  || from_option (includes "Unauthorized") false (err_message err)
  || from_option (includes "Token expired") false (err_message err)
  || from_option (includes "Invalid token") false (err_message err).

Record Operation : Type := mkOperation {
  operation_id : nat;
  operationName : option string }.

(** The module-level variables of the file. *)
Record LinkState : Type := mkLinkState {
  isRefreshing : bool;
  pendingRequests : list Operation }.

(** What the link does to the outside. *)
Inductive LinkEffect : Type :=
| ObserverNext (op : Operation) (result : OperationResult)
| ObserverError (op : Operation) (err : option GraphQLError)
| ObserverComplete (op : Operation)
| ConsoleError (message : string)
| ClearCookiesThenLogin.

(** The first authentication error of a result, where the loop over
    [result.errors] returns. *)
Definition first_auth_error (result : OperationResult) : option GraphQLError :=
  match result_errors result with
  | Some errs => List.find is_auth_error errs
  | None => None
  end.

(** The [next] callback of the error link. *)
Definition errorLink_next (window_defined : bool) (op : Operation)
    (result : OperationResult) (g : LinkState) : LinkState * list LinkEffect :=
  match first_auth_error result with
  | Some err =>
      if bool_decide (operationName op = Some "RefreshAuthTokens") then
        (g, [ConsoleError "Refresh token failed, redirecting to login"]
            ++ (if window_defined then [ClearCookiesThenLogin] else [])
            ++ [ObserverError op (Some err)])
      else if isRefreshing g then
        (mkLinkState (isRefreshing g) (pendingRequests g ++ [op]), [])
      else (mkLinkState true (pendingRequests g), [])
  | None => (g, [ObserverNext op result])
  end.

(** What the wrapped link emits for an operation. *)
Inductive LinkEvent : Type :=
| EmitNext (op : Operation) (result : OperationResult)
| EmitError (op : Operation)
| EmitComplete (op : Operation).

Definition errorLink_step (window_defined : bool) (ev : LinkEvent)
    (g : LinkState) : LinkState * list LinkEffect :=
  match ev with
  | EmitNext op result => errorLink_next window_defined op result g
  | EmitError op => (g, [ConsoleError "[Network error]:"; ObserverError op None])
  | EmitComplete op => (g, [ObserverComplete op])
  end.

(** The link over a sequence of emissions. *)
Fixpoint errorLink_run (window_defined : bool) (evs : list LinkEvent)
    (g : LinkState) : LinkState * list LinkEffect :=
  match evs with
  | [] => (g, [])
  | ev :: rest =>
      let '(g1, out1) := errorLink_step window_defined ev g in
      let '(g2, out2) := errorLink_run window_defined rest g1 in
      (g2, out1 ++ out2)
  end.

(** The operations whose result holds an authentication error and which are
    not the refresh mutation, in the order their results arrive. *)
Definition auth_failed (evs : list LinkEvent) : list Operation :=
  omap (fun ev =>
          match ev with
          | EmitNext op result =>
              if from_option (fun _ => true) false (first_auth_error result)
                 && negb (bool_decide
                            (operationName op = Some "RefreshAuthTokens"))
              then Some op else None
          | _ => None
          end) evs.

(** ** A request through the proxy, for the examples *)

(** The body of a [Me] query. *)
Definition me_request : Json :=
  JsonObject {[ "operationName" := JsonString "Me";
                "query" := JsonString "query Me { me { id } }" ]}.

(** A serialiser that writes the operation name only, and an upstream that
    answers every call. *)
Definition name_only_text (b : Json) : string :=
  match operationName_of b with
  | Some (Some (JsonString s)) => s
  | _ => "null"
  end.

Definition upstream_ok (call : UpstreamCall) : UpstreamResult :=
  UpstreamResponds 200 "{}".

(** * Properties *)

(** ** Strings *)

Lemma string_app_nil_l (s : string) : "" +:+ s = s.
Proof. reflexivity. Qed.

Lemma string_app_cons (c : ascii) (s t : string) :
  String c s +:+ t = String c (s +:+ t).
Proof. reflexivity. Qed.

Lemma string_app_assoc (s t u : string) : (s +:+ t) +:+ u = s +:+ (t +:+ u).
Proof.
  induction s as [|c s IH]; [reflexivity|].
  rewrite !string_app_cons. by rewrite IH.
Qed.

Lemma compatible_app (a b r1 r2 : string) :
  a +:+ r1 = b +:+ r2 -> compatible a b = true.
Proof.
  revert b. induction a as [|x a IH]; intros [|y b]; try reflexivity.
  rewrite !string_app_cons. intros [= -> Hrest]. simpl.
  rewrite bool_decide_eq_true_2 by done. simpl. eauto.
Qed.

Lemma elem_of_all_ascii (c : ascii) : c ∈ all_ascii.
Proof.
  unfold all_ascii. rewrite <- (ascii_nat_embedding c).
  apply list_elem_of_fmap_2, elem_of_seq.
  pose proof (nat_ascii_bounded c). lia.
Qed.

(** ** [JSON.stringify] is injective on flat objects *)

Lemma escape_code_table :
  forallb (fun c1 => forallb (escape_code_ok c1) all_ascii) all_ascii = true.
Proof. vm_compute. reflexivity. Qed.

Lemma escape_char_split (c1 c2 : ascii) (r1 r2 : string) :
  escape_char c1 +:+ r1 = escape_char c2 +:+ r2 -> c1 = c2 /\ r1 = r2.
Proof.
  intros Heq. assert (c1 = c2) as ->.
  { pose proof escape_code_table as Htab.
    rewrite forallb_forall in Htab.
    specialize (Htab c1 (proj1 (list_elem_of_In _ _) (elem_of_all_ascii c1))).
    rewrite forallb_forall in Htab.
    specialize (Htab c2 (proj1 (list_elem_of_In _ _) (elem_of_all_ascii c2))).
    unfold escape_code_ok in Htab.
    rewrite (compatible_app _ _ _ _ Heq) in Htab. simpl in Htab.
    by apply bool_decide_eq_true_1 in Htab. }
  split; [done|]. by apply (inj (String.app _)) in Heq.
Qed.

Lemma escape_char_starts_table :
  forallb (fun c => starts_plain (escape_char c)) all_ascii = true.
Proof. vm_compute. reflexivity. Qed.

Lemma escape_char_not_dquote (c : ascii) (r1 r2 : string) :
  escape_char c +:+ r1 <> String dquote r2.
Proof.
  pose proof escape_char_starts_table as Htab.
  rewrite forallb_forall in Htab.
  specialize (Htab c (proj1 (list_elem_of_In _ _) (elem_of_all_ascii c))).
  destruct (escape_char c) as [|x e]; [done|].
  rewrite string_app_cons. intros [= -> _]. by vm_compute in Htab.
Qed.

Lemma escape_split (s1 s2 r1 r2 : string) :
  escape s1 +:+ String dquote r1 = escape s2 +:+ String dquote r2 ->
  s1 = s2 /\ r1 = r2.
Proof.
  revert s2. induction s1 as [|c1 s1 IH]; intros [|c2 s2]; simpl.
  - rewrite !string_app_nil_l. by intros [= ->].
  - rewrite string_app_nil_l, string_app_assoc. intros Heq. symmetry in Heq.
    by apply escape_char_not_dquote in Heq.
  - rewrite string_app_nil_l, string_app_assoc. intros Heq.
    by apply escape_char_not_dquote in Heq.
  - rewrite !string_app_assoc. intros [-> Heq]%escape_char_split.
    apply IH in Heq as [-> ->]. done.
Qed.

Lemma QuoteJSONString_split (s1 s2 r1 r2 : string) :
  QuoteJSONString s1 +:+ r1 = QuoteJSONString s2 +:+ r2 ->
  s1 = s2 /\ r1 = r2.
Proof.
  unfold QuoteJSONString. rewrite !string_app_cons, !string_app_assoc.
  intros [= Heq]. rewrite !string_app_cons, !string_app_nil_l in Heq.
  by apply escape_split in Heq.
Qed.

#[local] Arguments String.append : simpl nomatch.

Lemma delimited_not_num (t : string) :
  delimited t -> exists c t', t = String c t' /\ is_num_char c = false
                              /\ c <> dquote.
Proof. intros [t' [-> | ->]]; eexists _, _; split_and!; done. Qed.

Lemma str_all_split (P : ascii -> bool) (a b t1 t2 : string) :
  str_all P a = true -> str_all P b = true ->
  (exists c t', t1 = String c t' /\ P c = false) ->
  (exists c t', t2 = String c t' /\ P c = false) ->
  a +:+ t1 = b +:+ t2 -> a = b /\ t1 = t2.
Proof.
  intros Ha Hb (c1 & t1' & -> & Hc1) (c2 & t2' & -> & Hc2). revert b Ha Hb.
  induction a as [|x a IH]; intros [|y b]; simpl;
    rewrite ?string_app_nil_l, ?string_app_cons.
  - done.
  - intros _ [Hy _]%andb_prop [= -> _]. congruence.
  - intros [Hx _]%andb_prop _ [= -> _]. congruence.
  - intros [_ Ha]%andb_prop [_ Hb]%andb_prop [= -> Heq].
    destruct (IH _ Ha Hb Heq) as [-> ?]. done.
Qed.

Lemma string_of_uint_num (d : Decimal.uint) :
  str_all is_num_char (NilEmpty.string_of_uint d) = true.
Proof. induction d; simpl; auto. Qed.

Lemma NumberToString_num (n : Z) : str_all is_num_char (NumberToString n) = true.
Proof.
  unfold NumberToString, NilEmpty.string_of_int.
  destruct (Z.to_int n); simpl; apply string_of_uint_num.
Qed.

Lemma NumberToString_inj (n m : Z) : NumberToString n = NumberToString m -> n = m.
Proof.
  unfold NumberToString. intros Heq.
  assert (Some (Z.to_int n) = Some (Z.to_int m)) as [= Hint].
  { rewrite <- !NilEmpty.isi. by rewrite Heq. }
  rewrite <- (DecimalZ.of_to n), <- (DecimalZ.of_to m). by rewrite Hint.
Qed.

Lemma SerializeJSONValue_split (v1 v2 : JsValue) (t1 t2 : string) :
  delimited t1 -> delimited t2 ->
  SerializeJSONValue v1 +:+ t1 = SerializeJSONValue v2 +:+ t2 ->
  v1 = v2 /\ t1 = t2.
Proof.
  intros Ht1 Ht2.
  destruct (delimited_not_num _ Ht1) as (c1 & t1' & E1 & Hc1 & Hq1).
  destruct (delimited_not_num _ Ht2) as (c2 & t2' & E2 & Hc2 & Hq2).
  destruct v1 as [n1|s1], v2 as [n2|s2]; simpl.
  - intros Heq. apply (str_all_split is_num_char) in Heq as [Heq ->];
      eauto using NumberToString_num.
    by apply NumberToString_inj in Heq as ->.
  - pose proof (NumberToString_num n1) as Hn.
    destruct (NumberToString n1) as [|x a]; subst t1; simpl;
      intros [= -> _]; done.
  - pose proof (NumberToString_num n2) as Hn.
    destruct (NumberToString n2) as [|x a]; subst t2; simpl;
      intros [= <- _]; done.
  - intros [-> ->]%QuoteJSONString_split. done.
Qed.

Lemma SerializeJSONProperties_cons (kv : string * JsValue) (o : JsObject)
    (t : string) :
  SerializeJSONProperties (kv :: o) +:+ t
  = QuoteJSONString kv.1 +:+ ":" +:+ SerializeJSONValue kv.2 +:+ after_member o t.
Proof.
  destruct o as [|kv' o]; simpl; unfold SerializeJSONMember;
    by rewrite !string_app_assoc.
Qed.

Lemma after_member_delimited (o : JsObject) (r : string) :
  delimited (after_member o ("}" +:+ r)).
Proof. destruct o; eexists; [right|left]; reflexivity. Qed.

Lemma SerializeJSONProperties_split (o1 o2 : JsObject) (r1 r2 : string) :
  SerializeJSONProperties o1 +:+ "}" +:+ r1
  = SerializeJSONProperties o2 +:+ "}" +:+ r2 ->
  o1 = o2 /\ r1 = r2.
Proof.
  revert o2. induction o1 as [|[k1 v1] o1 IH]; intros [|[k2 v2] o2].
  - simpl. by intros [= ->].
  - rewrite SerializeJSONProperties_cons. unfold QuoteJSONString. simpl. done.
  - rewrite SerializeJSONProperties_cons. unfold QuoteJSONString. simpl. done.
  - rewrite !SerializeJSONProperties_cons. simpl.
    intros [-> Heq]%QuoteJSONString_split. simpl in Heq.
    injection Heq as Heq.
    apply SerializeJSONValue_split in Heq as [-> Heq];
      [|apply (after_member_delimited _ r1)|apply (after_member_delimited _ r2)].
    destruct o1 as [|kv1 o1], o2 as [|kv2 o2]; unfold after_member in Heq.
    + by injection Heq as ->.
    + simpl in Heq. done.
    + simpl in Heq. done.
    + injection Heq as Heq. by destruct (IH (kv2 :: o2) Heq) as [-> ->].
Qed.

Lemma JSON_stringify_inj (o1 o2 : JsObject) :
  JSON_stringify o1 = JSON_stringify o2 -> o1 = o2.
Proof.
  unfold JSON_stringify. simpl. intros [= Heq].
  by apply (SerializeJSONProperties_split o1 o2 "" "") in Heq as [-> _].
Qed.

(** ** Objects *)

Lemma is_unpersisted_true (o : JsObject) :
  is_unpersisted o = true <-> id_of o = Some SENTINEL.
Proof. unfold is_unpersisted, strict_eq. apply bool_decide_eq_true. Qed.

Lemma is_unpersisted_false (o : JsObject) :
  is_unpersisted o = false <-> id_of o <> Some SENTINEL.
Proof. unfold is_unpersisted, strict_eq. apply bool_decide_eq_false. Qed.

Lemma strict_eq_true (x y : option JsValue) : strict_eq x y = true <-> x = y.
Proof. apply bool_decide_eq_true. Qed.

Lemma strict_eq_false (x y : option JsValue) : strict_eq x y = false <-> x <> y.
Proof. apply bool_decide_eq_false. Qed.

Lemma set_prop_app_fresh (k : string) (v : JsValue) (p o : JsObject) :
  k ∉ keys p -> set_prop k v (p ++ o) = p ++ set_prop k v o.
Proof.
  unfold keys. induction p as [|[k' v'] p IH]; simpl; [done|].
  rewrite not_elem_of_cons. intros [Hne Hp].
  rewrite decide_False by done. by rewrite IH.
Qed.

Lemma spread_over_prefix (p s v : JsObject) :
  keys s = keys v -> NoDup (keys p ++ keys v) ->
  spread (p ++ s) v = p ++ v.
Proof.
  unfold spread, keys. revert p s.
  induction v as [|[k x] v IH]; intros p [|[k' y] s]; simpl; try done.
  intros [= -> Hks] Hnd.
  rewrite set_prop_app_fresh.
  - change (set_prop k x ((k, y) :: s))
      with (if decide (k = k) then (k, x) :: s else (k, y) :: set_prop k x s).
    case_decide; [|done].
    rewrite (cons_middle _ p s), (cons_middle _ p v), !(assoc_L (++)).
    apply IH; [done|].
    rewrite fmap_app. simpl. by rewrite <- (assoc_L (++)).
  - apply NoDup_app in Hnd as (_ & Hdisj & _).
    intros Hin. apply (Hdisj _ Hin). simpl. left.
Qed.

(** Spreading a row over a snapshot row with the same keys yields the row. *)
Lemma spread_aligned (s v : JsObject) :
  keys s = keys v -> wf_object s -> spread s v = v.
Proof.
  intros Hk Hwf. apply (spread_over_prefix [] s v Hk). simpl.
  by rewrite <- Hk.
Qed.

Lemma id_of_set_id (n : Z) (o : JsObject) :
  id_of (set_prop "id" (JNum n) o) = Some (JNum n).
Proof.
  unfold id_of. induction o as [|[k v] o IH]; cbn [set_prop prop].
  - by case_decide.
  - destruct (decide (k = "id")) as [->|Hne]; cbn [prop]; by case_decide.
Qed.

(** ** The dirty set *)

Lemma differs_true (its : list JsObject) (item : JsObject) (idx : nat) :
  differs its item idx = true <-> its !! idx <> Some item.
Proof.
  unfold differs, JSON_stringify_opt. rewrite negb_true_iff, bool_decide_eq_false.
  destruct (its !! idx) as [s|]; simpl; [|done].
  split; intros Hne Heq; apply Hne.
  - by injection Heq as ->.
  - apply (inj Some), JSON_stringify_inj in Heq. by subst.
Qed.

Lemma row_dirty_test (its : list JsObject) (i : nat) (row : JsObject) :
  is_unpersisted row || differs its row i = true <-> row_dirty its i row.
Proof.
  unfold row_dirty. rewrite orb_true_iff, is_unpersisted_true, differs_true.
  done.
Qed.

Lemma elem_of_dirtyIndexes (its vals : list JsObject) (idx : Z) :
  idx ∈ dirtyIndexes its vals <->
  exists (i : nat) (row : JsObject),
    idx = Z.of_nat i /\ vals !! i = Some row /\ row_dirty its i row.
Proof.
  unfold dirtyIndexes. rewrite list_elem_of_filter, elem_of_lookup_imap.
  split.
  - intros (Hne & i & row & Hidx & Hrow).
    exists i, row. split_and!; [|done|].
    + destruct (is_unpersisted row || differs its row i); [done|]. by subst.
    + apply row_dirty_test.
      destruct (is_unpersisted row || differs its row i); [done|]. by subst.
  - intros (i & row & -> & Hrow & Hd%row_dirty_test).
    split; [lia|]. exists i, row. by rewrite Hd.
Qed.

Lemma dirty_scan_sorted (P : nat -> JsObject -> bool) (vals : list JsObject)
    (k : nat) :
  let found :=
    filter (fun idx => idx ≠ (-1)%Z)
      (imap (fun idx item =>
               if P (k + idx) item then Z.of_nat (k + idx) else (-1)%Z) vals) in
  StronglySorted Z.lt found /\ Forall (fun z => (Z.of_nat k <= z)%Z) found.
Proof.
  revert k. induction vals as [|row vals IH]; intros k; simpl.
  - split; constructor.
  - specialize (IH (S k)). simpl in IH.
    erewrite (imap_ext _ (fun idx item =>
       if P (S (k + idx)) item then Z.of_nat (S (k + idx)) else (-1)%Z)) by
      (intros; simpl; by rewrite Nat.add_succ_r).
    destruct IH as [Hs Hf].
    rewrite filter_cons. rewrite Nat.add_0_r.
    destruct (P k row).
    + rewrite decide_True by lia. split.
      * constructor; [done|]. eapply Forall_impl; [exact Hf|]. simpl. lia.
      * constructor; [lia|]. eapply Forall_impl; [exact Hf|]. simpl. lia.
    + rewrite decide_False by lia. split; [done|].
      eapply Forall_impl; [exact Hf|]. simpl. lia.
Qed.

(** The dirty indexes come out in increasing order, each once. *)
Lemma dirtyIndexes_sorted (its vals : list JsObject) :
  StronglySorted Z.lt (dirtyIndexes its vals).
Proof.
  apply (dirty_scan_sorted
           (fun idx item => is_unpersisted item || differs its item idx) vals 0).
Qed.

(** ** The store's calls, one at a time *)

Lemma array_get_of_nat {A} (arr : list A) (i : nat) :
  array_get arr (Z.of_nat i) = arr !! i.
Proof.
  unfold array_get. rewrite (proj2 (Z.leb_le _ _)) by lia.
  by rewrite Nat2Z.id.
Qed.

(** A store call reads nothing of the response: it settles unless the fetch
    rejects. *)
Lemma response_cases {X} (r : Response) (a b : X) :
  match r with NetworkError => a | Unreadable | Responded _ => b end
  = if decide (r = NetworkError) then a else b.
Proof. by destruct r. Qed.

Ltac case_response w :=
  rewrite ?response_cases; destruct (decide (respond w _ = NetworkError)).

Lemma await_Resolved (p : Outcome) : await p Resolved = p.
Proof. by destruct p. Qed.

Lemma handleSave_one (w : World) (ep : string) (user : JsObject) (st : State) :
  handleSave w ep [user] [0%Z] st = persist_row w ep user st.
Proof. unfold persist_row. simpl. apply await_Resolved. Qed.

Lemma persist_row_settles (w : World) (ep : string) (user : JsObject)
    (st : State) :
  respond w (List.length (requests st)) <> NetworkError ->
  persist_row w ep user st
  = Resolved
      (mkState
         (store_effect (Date_now w (S (List.length (requests st)))) user
                       (items st))
         (loading st) (error st) (values st) (initialValues st)
         (isSubmitting st) (savingIndexes st) (toasts st)
         (requests st ++ [request_for ep user])).
Proof.
  intros Hres.
  unfold persist_row, store_effect, request_for, createItem, updateItem, fetch.
  destruct (respond w _); [done|..]; destruct (is_unpersisted user);
    unfold setItems; simpl; by rewrite ?length_app, ?Nat.add_1_r.
Qed.

Lemma persist_row_rejects (w : World) (ep : string) (user : JsObject)
    (st : State) :
  respond w (List.length (requests st)) = NetworkError ->
  persist_row w ep user st
  = Rejected
      (mkState (items st) (loading st) (error st) (values st)
         (initialValues st) (isSubmitting st) (savingIndexes st) (toasts st)
         (requests st ++ [request_for ep user])).
Proof.
  intros Hres.
  unfold persist_row, request_for, createItem, updateItem, fetch.
  rewrite Hres. by destruct (is_unpersisted user).
Qed.

(** ** Formik's comparison *)

Lemma isEqual_object_refl (a : JsObject) : isEqual_object a a = true.
Proof.
  unfold isEqual_object. rewrite bool_decide_eq_true_2 by done. simpl.
  apply forallb_forall. intros k Hk%list_elem_of_In.
  by rewrite !bool_decide_eq_true_2.
Qed.

Lemma isEqual_refl (l : list JsObject) : isEqual l l = true.
Proof.
  induction l as [|a l IH]; [done|]. simpl.
  by rewrite isEqual_object_refl, IH.
Qed.

Lemma isEqual_length (a b : list JsObject) :
  isEqual a b = true -> List.length a = List.length b.
Proof.
  revert b. induction a as [|x a IH]; intros [|y b]; simpl; try done.
  intros [_ Hab]%andb_prop. f_equal. by apply IH.
Qed.

Lemma isEqual_lookup (a b : list JsObject) (i : nat) (x y : JsObject) :
  isEqual a b = true -> a !! i = Some x -> b !! i = Some y ->
  isEqual_object x y = true.
Proof.
  revert b i. induction a as [|x0 a IH]; intros [|y0 b] [|i]; simpl; try done.
  - intros [Hxy _]%andb_prop [= <-] [= <-]. done.
  - intros [_ Hab]%andb_prop. by apply IH.
Qed.

Lemma isEqual_object_prop (a b : JsObject) (k : string) :
  isEqual_object a b = true -> k ∈ keys a -> prop k a = prop k b.
Proof.
  unfold isEqual_object. intros [_ Hall]%andb_prop Hk%list_elem_of_In.
  apply (proj1 (forallb_forall _ _) Hall) in Hk.
  apply andb_prop in Hk as [_ Hk]. by apply bool_decide_eq_true in Hk.
Qed.

Lemma prop_head (k : string) (v : JsValue) (o : JsObject) :
  prop k ((k, v) :: o) = Some v.
Proof. cbn [prop]. by rewrite decide_True. Qed.

Lemma prop_tail (k k' : string) (v : JsValue) (o : JsObject) :
  k' <> k -> prop k ((k', v) :: o) = prop k o.
Proof. intros Hne. cbn [prop]. by rewrite decide_False. Qed.

Lemma prop_is_Some (k : string) (o : JsObject) :
  is_Some (prop k o) -> k ∈ keys o.
Proof.
  unfold keys. induction o as [|[k' v'] o IH]; cbn [prop].
  - by intros [? ?].
  - rewrite fmap_cons. case_decide as Hk; [subst; intros _; left|].
    intros Ho. right. by apply IH.
Qed.

(** Two objects with the same keys in the same order and the same values
    are the same object. *)
Lemma same_keys_same_props (a b : JsObject) :
  keys a = keys b -> wf_object a ->
  (forall k, k ∈ keys a -> prop k a = prop k b) -> a = b.
Proof.
  unfold wf_object, keys. revert b.
  induction a as [|[k v] a IH]; intros [|[k' v'] b]; try done.
  rewrite !fmap_cons. intros [= <- Hkeys] [Hfresh Hwf]%NoDup_cons Hprops.
  pose proof (Hprops k ltac:(left)) as Hv.
  rewrite !prop_head in Hv. injection Hv as <-. f_equal.
  apply IH; [done|done|]. intros k0 Hk0.
  specialize (Hprops k0 ltac:(by right)).
  rewrite !prop_tail in Hprops by (intros ->; done). done.
Qed.

Lemma isEqual_object_eq (a b : JsObject) :
  isEqual_object a b = true -> keys a = keys b -> wf_object a -> a = b.
Proof.
  intros Heq Hkeys Hwf. apply same_keys_same_props; [done|done|].
  intros k Hk. by apply isEqual_object_prop.
Qed.

Lemma isEqual_snoc (l : list JsObject) (x : JsObject) :
  isEqual l (l ++ [x]) = false.
Proof.
  destruct (isEqual l (l ++ [x])) eqn:Heq; [|done].
  apply isEqual_length in Heq. rewrite length_app in Heq. simpl in Heq. lia.
Qed.

(** ** A render of the table *)

Lemma reinitialize_eq (st : State) :
  reinitialize st
  = mkState (items st) (loading st) (error st)
      (reseed (items st) (values st, initialValues st)).1
      (reseed (items st) (values st, initialValues st)).2
      (if isEqual (initialValues st) (items st) then isSubmitting st else false)
      (savingIndexes st) (toasts st) (requests st).
Proof.
  unfold reinitialize, reseed, resetForm. cbn [snd].
  destruct (isEqual _ _); by destruct st.
Qed.

Lemma reseed_settled (its : list JsObject) (f : list JsObject * list JsObject) :
  isEqual (reseed its f).2 its = true.
Proof.
  unfold reseed. destruct (isEqual f.2 its) eqn:Heq; [done|].
  apply isEqual_refl.
Qed.

Lemma reinitialize_settled (st : State) :
  isEqual (initialValues st) (items st) = true -> reinitialize st = st.
Proof. unfold reinitialize. by intros ->. Qed.

(** ** The save loop *)

Lemma settled_all (w : World) (n : nat) (rows : list JsObject) :
  all_settle w n (List.length rows) -> settled w n rows = List.length rows.
Proof.
  revert n. induction rows as [|row rows IH]; intros n Hall; simpl; [done|].
  assert (settled w (S n) rows = List.length rows) as ->.
  { apply IH. intros j Hj.
    replace (S n + j)%nat with (n + S j)%nat by lia. apply Hall. simpl. lia. }
  destruct (respond w n) eqn:Hres; [|done..].
  exfalso. apply (Hall 0%nat); simpl; [lia|]. by rewrite Nat.add_0_r.
Qed.

Lemma settled_throws (w : World) (n j : nat) (rows : list JsObject) :
  (j < List.length rows)%nat -> throws_at w n j -> settled w n rows = j.
Proof.
  revert n j. induction rows as [|row rows IH]; intros n j Hj [Hall Hthrow];
    simpl in *; [lia|].
  destruct j as [|j].
  - rewrite Nat.add_0_r in Hthrow. by rewrite Hthrow.
  - assert (settled w (S n) rows = j) as ->.
    { apply IH; [lia|]. split.
      - intros j' Hj'. replace (S n + j')%nat with (n + S j')%nat by lia.
        apply Hall. lia.
      - by replace (S n + j)%nat with (n + S j)%nat by lia. }
    destruct (respond w n) eqn:Hres; [|done..].
    exfalso. apply (Hall 0%nat); [lia|]. by rewrite Nat.add_0_r.
Qed.

(** What the loop does, in terms of how many calls settled. *)
Lemma save_rows_run (w : World) (ep : string) (vals : list JsObject)
    (idxs : list Z) (rows : list JsObject) (st : State) :
  Forall2 (fun idx row => array_get vals idx = Some row) idxs rows ->
  let n := List.length (requests st) in
  let k := settled w n rows in
  let o := save_rows (handleSave w ep) vals idxs st in
  is_resolved o = bool_decide (k = List.length rows)
  /\ items (state_of o) = persisted w n k rows (items st)
  /\ requests (state_of o)
     = requests st
       ++ (request_for ep
             <$> take (if bool_decide (k = List.length rows) then k else S k)
                      rows)
  /\ savingIndexes (state_of o) = savingIndexes st ∖ list_to_set (take k idxs)
  /\ (values (state_of o), initialValues (state_of o))
     = rendered w n k rows (items st) (values st, initialValues st)
  /\ toasts (state_of o) = toasts st
  /\ loading (state_of o) = loading st
  /\ error (state_of o) = error st.
Proof.
  intros Hrows. revert st.
  induction Hrows as [|idx row idxs rows Hrow Hrows IH]; intros st.
  - simpl. split_and!; try done.
    + by rewrite app_nil_r.
    + set_solver.
  - cbn [save_rows settled rendered]. rewrite Hrow.
    change (option_list (Some row)) with [row]. rewrite handleSave_one.
    rewrite reinitialize_eq.
    destruct (decide (respond w (List.length (requests st)) = NetworkError))
      as [Hres|Hres].
    + rewrite persist_row_rejects by done. rewrite Hres. simpl.
      split_and!; try done; [set_solver|by destruct (reseed _ _)].
    + rewrite persist_row_settles by done. cbn [await].
      cbn [items loading error values initialValues isSubmitting savingIndexes
           toasts requests].
      match goal with |- context [save_rows _ _ _ ?s] =>
        specialize (IH s); set (s1 := s) in * end.
      cbv zeta in IH.
      destruct IH as (Hres' & Hitems & Hreqs & Hsaving & Hform & Ht & Hl & He).
      rewrite Hres', Hitems, Hreqs, Hsaving, Hform, Ht, Hl, He.
      subst s1. cbn [items loading error values initialValues isSubmitting
                     savingIndexes toasts requests setSavingIndexes].
      rewrite length_app, Nat.add_1_r. cbn [List.length].
      assert (forall X (a b : X),
                match respond w (List.length (requests st)) with
                | NetworkError => a
                | Unreadable | Responded _ => b
                end = b) as Hmatch.
      { intros X a b. by destruct (respond w _). }
      rewrite !Hmatch. clear Hmatch.
      split_and!.
      * apply bool_decide_ext. simpl. lia.
      * done.
      * rewrite <- (assoc_L (++)). simpl.
        rewrite (bool_decide_ext (S (settled w (S (List.length (requests st))) rows)
                                  = S (List.length rows))
                                 (settled w (S (List.length (requests st))) rows
                                  = List.length rows)) by lia.
        clear. by case_bool_decide.
      * simpl. set_solver.
      * cbn [rendered]. by destruct (reseed _ _).
      * done.
      * done.
      * done.
Qed.

(** A render right after a render changes nothing: when the loop stopped at
    a call that threw, the form's initial values are the store's list. *)
Lemma rendered_settled (w : World) (n k : nat) (rows its : list JsObject)
    (f : list JsObject * list JsObject) :
  (k < List.length rows)%nat ->
  isEqual (rendered w n k rows its f).2 (persisted w n k rows its) = true.
Proof.
  revert n k its f. induction rows as [|row rows IH]; intros n k its f Hk;
    simpl in Hk; [lia|].
  destruct k as [|k]; cbn [rendered persisted].
  - apply reseed_settled.
  - apply IH. lia.
Qed.

(** Either no render of the loop reset the form, or the values are the
    initial values. *)
Lemma rendered_cases (w : World) (n k : nat) (rows its : list JsObject)
    (f : list JsObject * list JsObject) :
  rendered w n k rows its f = f
  \/ (rendered w n k rows its f).1 = (rendered w n k rows its f).2.
Proof.
  assert (forall its f, reseed its f = f \/ (reseed its f).1 = (reseed its f).2)
    as Hreseed.
  { intros its0 f0. unfold reseed. destruct (isEqual _ _); auto. }
  revert n k its f. induction rows as [|row rows IH]; intros n k its f;
    [by left|].
  destruct k as [|k]; cbn [rendered]; [apply Hreseed|].
  destruct (Hreseed its f) as [->|Heq]; [apply IH|]. right.
  destruct (IH (S n) k (store_effect (Date_now w (S n)) row its)
               (reseed its f)) as [->|?]; done.
Qed.

(** ** How the calls change the store's list *)

Lemma array_get_Some {A} (arr : list A) (idx : Z) (x : A) :
  array_get arr idx = Some x ->
  idx = Z.of_nat (Z.to_nat idx) /\ arr !! Z.to_nat idx = Some x.
Proof.
  unfold array_get. destruct (0 <=? idx)%Z eqn:Hle; [|done].
  apply Z.leb_le in Hle. split; [lia|done].
Qed.

Lemma dirtyRows_lookup (its vals : list JsObject) :
  Forall2 (fun idx row => array_get vals idx = Some row)
          (dirtyIndexes its vals) (dirtyRows its vals).
Proof.
  unfold dirtyRows.
  assert (Forall (fun idx => is_Some (array_get vals idx))
                 (dirtyIndexes its vals)) as Hall.
  { apply Forall_forall. intros idx (i & row & -> & Hrow & _)%elem_of_dirtyIndexes.
    rewrite array_get_of_nat. eauto. }
  induction Hall as [|idx idxs [row Hrow] Hall IH]; simpl; [constructor|].
  rewrite Hrow. simpl. by constructor.
Qed.

Lemma dirtyRows_length (its vals : list JsObject) :
  List.length (dirtyRows its vals) = List.length (dirtyIndexes its vals).
Proof. symmetry. eapply Forall2_length, dirtyRows_lookup. Qed.

Lemma store_effect_create (now : Z) (row : JsObject) (h t : list JsObject) :
  id_of row = Some SENTINEL ->
  store_effect now row (h ++ t) = h ++ (t ++ [set_prop "id" (JNum now) row]).
Proof.
  intros Hid%is_unpersisted_true. unfold store_effect. rewrite Hid.
  by rewrite (assoc_L (++)).
Qed.

Lemma tracks_insert (vals h : list JsObject) (i : nat) (row c : JsObject) :
  tracks vals h -> h !! i = Some c -> aligned c row ->
  tracks vals (<[i := row]> h).
Proof.
  intros [Hnd Hal] Hc (Hid & Hk & Hwf). split.
  - rewrite list_fmap_insert, <- Hid.
    rewrite list_insert_id; [done|]. by rewrite list_lookup_fmap, Hc.
  - intros j row' Hrow' Hp. destruct (decide (j = i)) as [->|Hne].
    + destruct (Hal _ _ Hrow' Hp) as (c' & Hc' & Hid' & Hk' & Hwf').
      assert (c' = c) as -> by congruence.
      exists row. split.
      * apply list_lookup_insert_eq. by eapply lookup_lt_Some.
      * split_and!; [congruence|congruence|]. unfold wf_object. by rewrite <- Hk.
    + rewrite list_lookup_insert_ne by done. eauto.
Qed.

Lemma store_effect_update (now : Z) (vals h t : list JsObject) (i : nat)
    (row : JsObject) :
  tracks vals h -> vals !! i = Some row -> id_of row <> Some SENTINEL ->
  store_effect now row (h ++ t) = <[i := row]> h ++ store_effect now row t.
Proof.
  intros [Hnd Hal] Hrow Hp. destruct (Hal _ _ Hrow Hp) as (c & Hc & Hid & Hk & Hwf).
  unfold store_effect. rewrite (proj2 (is_unpersisted_false row)) by done.
  rewrite fmap_app. f_equal. apply list_eq. intros j.
  rewrite list_lookup_fmap. destruct (decide (j = i)) as [->|Hne].
  - rewrite list_lookup_insert_eq by (by eapply lookup_lt_Some).
    rewrite Hc. simpl. rewrite (proj2 (strict_eq_true _ _)) by done.
    by rewrite spread_aligned.
  - rewrite list_lookup_insert_ne by done.
    destruct (h !! j) as [c'|] eqn:Hc'; simpl; [|done].
    rewrite (proj2 (strict_eq_false _ _)); [done|].
    intros Heq. apply Hne. eapply (NoDup_lookup (id_of <$> h)); [done|..].
    + by rewrite list_lookup_fmap, Hc'.
    + rewrite list_lookup_fmap, Hc. simpl. congruence.
Qed.








(** ** The submit handler, case by case *)

Section Save.
Variable w : World.
Variable cfg : CrudConfig.
Variable st : State.

Let vals := values st.
Let its := items st.
Let n := List.length (requests st).
Let D := dirtyIndexes its vals.
Let rows := dirtyRows its vals.

Lemma save_clean :
  D = [] ->
  save w cfg st
  = setSubmitting false
      (setSubmitting false
         (toast (toast_info "No changes to save") (setSubmitting true st))).
Proof.
  unfold save, handleSubmit. cbn [items values setSubmitting].
  fold vals its D. intros ->. done.
Qed.

Lemma save_loop_run :
  let o := save_rows (handleSave w (apiEndpoint cfg)) vals D
             (setSavingIndexes (fun _ => list_to_set D)
                (setSubmitting true st)) in
  let k := settled w n rows in
  is_resolved o = bool_decide (k = List.length rows)
  /\ items (state_of o) = persisted w n k rows its
  /\ requests (state_of o)
     = requests st
       ++ (request_for (apiEndpoint cfg)
             <$> take (if bool_decide (k = List.length rows) then k else S k)
                      rows)
  /\ savingIndexes (state_of o) = list_to_set D ∖ list_to_set (take k D)
  /\ (values (state_of o), initialValues (state_of o))
     = rendered w n k rows its (vals, initialValues st)
  /\ toasts (state_of o) = toasts st
  /\ loading (state_of o) = loading st
  /\ error (state_of o) = error st.
Proof.
  exact (save_rows_run w (apiEndpoint cfg) vals D rows
           (setSavingIndexes (fun _ => list_to_set D) (setSubmitting true st))
           (dirtyRows_lookup its vals)).
Qed.

Lemma save_dirty :
  D <> [] ->
  save w cfg st
  = reinitialize
      (setSubmitting false
         match save_rows (handleSave w (apiEndpoint cfg)) vals D
                 (setSavingIndexes (fun _ => list_to_set D)
                    (setSubmitting true st)) with
         | Resolved st' =>
             toast (toast_success
                      ("Saved " +:+ NumberToString (Z.of_nat (List.length D))
                       +:+ " item(s)"))
                   (resetForm vals st')
         | Rejected st' =>
             setSavingIndexes (fun _ => ∅)
               (toast (toast_error "Failed to save") st')
         end).
Proof.
  intros HD. unfold save, handleSubmit. cbn [items values setSubmitting].
  fold vals its D. rewrite bool_decide_eq_false_2; [done|].
  by destruct D.
Qed.

(** Every call settles: the loop runs to its end, the form is reset to the
    submitted values, and the table renders once more. *)
Lemma save_settled :
  D <> [] -> all_settle w n (List.length rows) ->
  let its' := persisted w n (List.length rows) rows its in
  requests (save w cfg st)
  = requests st ++ (request_for (apiEndpoint cfg) <$> rows)
  /\ items (save w cfg st) = its'
  /\ values (save w cfg st) = (if isEqual vals its' then vals else its')
  /\ initialValues (save w cfg st) = (if isEqual vals its' then vals else its')
  /\ toasts (save w cfg st)
     = toasts st
       ++ [toast_success
             ("Saved " +:+ NumberToString (Z.of_nat (List.length D))
              +:+ " item(s)")]
  /\ savingIndexes (save w cfg st) = ∅
  /\ isSubmitting (save w cfg st) = false
  /\ loading (save w cfg st) = loading st
  /\ error (save w cfg st) = error st.
Proof.
  intros HD Hall its'. rewrite (save_dirty HD).
  destruct save_loop_run as (Hres & Hitems & Hreqs & Hsav & _ & Ht & Hl & He).
  rewrite (settled_all _ _ _ Hall) in Hres, Hitems, Hreqs, Hsav.
  rewrite bool_decide_eq_true_2 in Hres, Hreqs by done.
  rewrite firstn_all in Hreqs.
  replace (List.length rows) with (List.length D) in Hsav
    by (symmetry; apply dirtyRows_length).
  rewrite firstn_all in Hsav.
  destruct (save_rows _ _ _ _) as [st'|st']; [|done].
  rewrite reinitialize_eq. unfold reseed.
  cbn [state_of] in *.
  cbn [items loading error values initialValues isSubmitting savingIndexes
       toasts requests setSubmitting toast resetForm snd].
  rewrite Hitems. fold its'.
  split_and!; try done.
  - by destruct (isEqual vals its').
  - by destruct (isEqual vals its').
  - by rewrite Ht.
  - rewrite Hsav. set_solver.
  - by destruct (isEqual vals its').
Qed.

Lemma save_all_settle :
  all_settle w n (List.length rows) ->
  requests (save w cfg st)
  = requests st ++ (request_for (apiEndpoint cfg) <$> rows)
  /\ items (save w cfg st) = persisted w n (List.length rows) rows its.
Proof.
  intros Hall. destruct (decide (D = [])) as [HD|HD].
  - rewrite (save_clean HD). subst rows.
    unfold dirtyRows. fold D. rewrite HD. simpl.
    split_and!; try done. by rewrite app_nil_r.
  - destruct (save_settled HD Hall) as (? & ? & _). done.
Qed.

(** The call for the row in position [j] throws: the loop stops there, and
    the last render of the table finds the form as the render before the
    call left it. *)
Lemma save_thrown (j : nat) :
  (j < List.length rows)%nat -> throws_at w n j ->
  requests (save w cfg st)
  = requests st ++ (request_for (apiEndpoint cfg) <$> take (S j) rows)
  /\ items (save w cfg st) = persisted w n j rows its
  /\ (values (save w cfg st), initialValues (save w cfg st))
     = rendered w n j rows its (vals, initialValues st)
  /\ toasts (save w cfg st) = toasts st ++ [toast_error "Failed to save"]
  /\ savingIndexes (save w cfg st) = ∅
  /\ isSubmitting (save w cfg st) = false
  /\ loading (save w cfg st) = loading st
  /\ error (save w cfg st) = error st.
Proof.
  intros Hj Hthrow.
  assert (D <> []) as HD.
  { intros HD. subst rows. rewrite dirtyRows_length in Hj. fold D in Hj.
    rewrite HD in Hj. simpl in Hj. lia. }
  rewrite (save_dirty HD).
  destruct save_loop_run as (Hres & Hitems & Hreqs & _ & Hform & Ht & Hl & He).
  rewrite (settled_throws _ _ _ _ Hj Hthrow) in Hres, Hitems, Hreqs, Hform.
  rewrite bool_decide_eq_false_2 in Hres, Hreqs by lia.
  pose proof (rendered_settled w n j rows its (vals, initialValues st) Hj)
    as Hset.
  rewrite <- Hform in Hset.
  destruct (save_rows _ _ _ _) as [st'|st']; [done|].
  cbn [state_of snd] in *. rewrite <- Hitems in Hset.
  rewrite reinitialize_settled by done.
  cbn [items loading error values initialValues isSubmitting savingIndexes
       toasts requests setSubmitting toast setSavingIndexes].
  split_and!; try done. by rewrite Ht.
Qed.
End Save.

(** ** Clean and aligned buffers *)

Lemma dirtyIndexes_clean (its vals : list JsObject) :
  (forall i row, vals !! i = Some row -> ~ row_dirty its i row) ->
  dirtyIndexes its vals = [].
Proof.
  intros Hclean. apply elem_of_nil_inv.
  intros idx (i & row & -> & Hrow & Hd)%elem_of_dirtyIndexes.
  by apply (Hclean i row).
Qed.

Lemma not_row_dirty (its : list JsObject) (i : nat) (row : JsObject) :
  ~ row_dirty its i row <-> id_of row <> Some SENTINEL /\ its !! i = Some row.
Proof.
  unfold row_dirty. split.
  - intros Hn. split; [tauto|].
    destruct (decide (its !! i = Some row)); tauto.
  - tauto.
Qed.




(** ** Reading properties *)

Lemma prop_set_prop_eq (k : string) (v : JsValue) (o : JsObject) :
  prop k (set_prop k v o) = Some v.
Proof.
  induction o as [|[k' v'] o IH]; cbn [set_prop prop].
  - by case_decide.
  - destruct (decide (k' = k)) as [->|Hne]; cbn [prop]; by case_decide.
Qed.

Lemma prop_set_prop_ne (k k' : string) (v : JsValue) (o : JsObject) :
  k <> k' -> prop k (set_prop k' v o) = prop k o.
Proof.
  intros Hne. induction o as [|[k0 v0] o IH]; cbn [set_prop prop].
  - by rewrite decide_False.
  - destruct (decide (k0 = k')) as [->|Hne']; cbn [prop].
    + by rewrite !decide_False.
    + by rewrite IH.
Qed.

Lemma prop_fresh (k : string) (o : JsObject) : k ∉ keys o -> prop k o = None.
Proof.
  unfold keys. induction o as [|[k' v'] o IH]; cbn [prop]; [done|].
  rewrite fmap_cons, not_elem_of_cons. intros [Hne Ho].
  rewrite decide_False by done. auto.
Qed.

(** Reading a property of [{ ...o, ...src }]. *)
Lemma prop_spread (k : string) (o src : JsObject) :
  wf_object src ->
  prop k (spread o src)
  = match prop k src with Some v => Some v | None => prop k o end.
Proof.
  unfold wf_object, keys. revert o.
  induction src as [|[k' v'] src IH]; intros o Hwf; [done|].
  rewrite fmap_cons in Hwf. apply NoDup_cons in Hwf as [Hfresh Hwf].
  change (spread o ((k', v') :: src)) with (spread (set_prop k' v' o) src).
  rewrite IH by done. cbn [prop].
  destruct (decide (k' = k)) as [->|Hne].
  - by rewrite (prop_fresh k src), prop_set_prop_eq.
  - destruct (prop k src); [done|]. by rewrite prop_set_prop_ne.
Qed.

Lemma StronglySorted_lt_NoDup (l : list Z) : StronglySorted Z.lt l -> NoDup l.
Proof.
  induction 1 as [|x l Hs IH Hall]; constructor; [|done].
  intros Hin. apply (proj1 (Forall_forall _ _) Hall) in Hin. lia.
Qed.

(** ** Renders between the calls of a save *)

Lemma rendered_stale (w : World) (n k : nat) (row : JsObject)
    (rows its : list JsObject) (f : list JsObject * list JsObject) :
  isEqual f.2 its = false ->
  rendered w n k (row :: rows) its f
  = rendered w n k (row :: rows) its (its, its).
Proof.
  intros Hf. cbn [rendered]. unfold reseed. rewrite Hf. cbn [snd].
  by rewrite isEqual_refl.
Qed.

(** Under [tracks], the call for a dirty row changes the store's list: a
    create makes it longer, an update replaces the row's record by the row,
    which differs from it. *)
Lemma store_effect_changes (now : Z) (vals h t : list JsObject) (idx : Z)
    (row : JsObject) :
  tracks vals h -> array_get vals idx = Some row ->
  (id_of row <> Some SENTINEL -> h !! Z.to_nat idx <> Some row) ->
  isEqual (h ++ t) (store_effect now row (h ++ t)) = false.
Proof.
  intros Htr [Hidx Hrow]%array_get_Some Hne.
  destruct (decide (id_of row = Some SENTINEL)) as [Hs|Hp].
  - unfold store_effect. rewrite (proj2 (is_unpersisted_true row)) by done.
    apply isEqual_snoc.
  - rewrite (store_effect_update _ vals _ _ (Z.to_nat idx)) by done.
    destruct Htr as [Hnd Hal].
    destruct (Hal _ _ Hrow Hp) as (c & Hc & Hid & Hk & Hwf).
    destruct (isEqual _ _) eqn:Heq; [|done]. exfalso.
    apply (Hne Hp). rewrite Hc. f_equal.
    apply isEqual_object_eq; [|done|done].
    eapply (isEqual_lookup _ _ (Z.to_nat idx)); [exact Heq|..].
    + by apply lookup_app_l_Some.
    + apply lookup_app_l_Some, list_lookup_insert_eq.
      by eapply lookup_lt_Some.
Qed.

(** When the form starts from the store's list and the snapshot tracks the
    buffer, the render before the first call leaves the form alone and every
    later render resets it to the store's list. *)
Lemma rendered_tracks (w : World) (vals : list JsObject) (idxs : list Z)
    (rows : list JsObject) :
  Forall2 (fun idx row => array_get vals idx = Some row) idxs rows ->
  NoDup idxs ->
  forall (k n : nat) (h t v : list JsObject),
    tracks vals h ->
    (forall idx row, idx ∈ idxs -> array_get vals idx = Some row ->
       id_of row <> Some SENTINEL -> h !! Z.to_nat idx <> Some row) ->
    (k < List.length rows)%nat ->
    rendered w n k rows (h ++ t) (v, h ++ t)
    = match k with
      | 0 => (v, h ++ t)
      | S _ => (persisted w n k rows (h ++ t), persisted w n k rows (h ++ t))
      end.
Proof.
  induction 1 as [|idx row idxs rows Hrow Hrows IH];
    intros Hnd0 k n h t v Htr Hdirty Hk; [simpl in Hk; lia|].
  apply NoDup_cons in Hnd0 as [Hfresh Hnd].
  destruct k as [|k]; cbn [rendered persisted].
  { unfold reseed. cbn [snd]. by rewrite isEqual_refl. }
  simpl in Hk. assert (k < List.length rows)%nat as Hk' by lia.
  destruct rows as [|row' rows']; [simpl in Hk'; lia|].
  destruct idxs as [|idx' idxs']; [by apply Forall2_nil_cons_inv in Hrows|].
  unfold reseed at 1. cbn [snd]. rewrite isEqual_refl.
  rewrite rendered_stale; cbn [snd].
  2:{ apply (store_effect_changes _ vals _ _ idx); [done|done|].
      intros Hp. apply Hdirty; [left|done|done]. }
  pose proof Hrow as [Hidx Hrow']%array_get_Some.
  set (now := Date_now w (S n)).
  assert (exists h' t', store_effect now row (h ++ t) = h' ++ t'
            /\ tracks vals h'
            /\ (forall j, j <> Z.to_nat idx -> h' !! j = h !! j)) as
    (h' & t' & Heff & Htr' & Hsame).
  { destruct (is_unpersisted row) eqn:Hun.
    - exists h, (t ++ [set_prop "id" (JNum now) row]). split_and!; [|done|done].
      apply store_effect_create. by apply is_unpersisted_true.
    - apply is_unpersisted_false in Hun.
      destruct Htr as [Hnd' Hal].
      destruct (Hal _ _ Hrow' Hun) as (c & Hc & Hali).
      exists (<[Z.to_nat idx := row]> h), (store_effect now row t).
      split_and!.
      + by apply (store_effect_update _ vals).
      + by eapply tracks_insert.
      + intros j Hj. by rewrite list_lookup_insert_ne. }
  rewrite Heff.
  rewrite (IH Hnd k (S n) h' t' (h' ++ t') Htr'); [by destruct k| |done].
  intros idx0 row0 Hin Hrow0 Hp0. rewrite Hsame.
  - apply Hdirty; [by right|done|done].
  - apply array_get_Some in Hrow0 as [Hidx0 _]. intros Heq.
    apply Hfresh. rewrite Hidx, <- Heq, <- Hidx0. done.
Qed.

(** ** Records carrying the sentinel *)

Lemma store_effect_all_persisted (now : Z) (row : JsObject)
    (its : list JsObject) :
  now <> 0%Z -> (id_of row <> Some SENTINEL -> wf_object row) ->
  all_persisted its -> all_persisted (store_effect now row its).
Proof.
  unfold all_persisted, store_effect. intros Hnow Hwf Hall.
  destruct (is_unpersisted row) eqn:Hun.
  - apply Forall_app. split; [done|]. apply Forall_singleton.
    rewrite id_of_set_id. unfold SENTINEL. congruence.
  - apply is_unpersisted_false in Hun. apply Forall_fmap.
    eapply Forall_impl; [exact Hall|]. intros r Hr. simpl.
    destruct (strict_eq (id_of r) (id_of row)); [|done].
    unfold id_of in *. rewrite prop_spread by auto.
    by destruct (prop "id" row).
Qed.

Lemma persisted_all_persisted (w : World) (rows : list JsObject) :
  Forall (fun row => id_of row <> Some SENTINEL -> wf_object row) rows ->
  (forall m, Date_now w m <> 0%Z) ->
  forall (k n : nat) (its : list JsObject),
    all_persisted its -> all_persisted (persisted w n k rows its).
Proof.
  intros Hrows Hclock.
  induction Hrows as [|row rows Hwf Hrows IH]; intros k n its Hall;
    [by destruct k|].
  destruct k as [|k]; cbn [persisted]; [done|].
  by apply IH, store_effect_all_persisted.
Qed.

Lemma faces_wf_rows (its vals : list JsObject) :
  faces vals its ->
  Forall (fun row => id_of row <> Some SENTINEL -> wf_object row)
         (dirtyRows its vals).
Proof.
  intros Hf. apply Forall_forall. intros row Hin Hp.
  unfold dirtyRows in Hin. apply list_elem_of_omap in Hin as (idx & _ & Hrow).
  apply array_get_Some in Hrow as [_ Hrow].
  destruct (Hf _ _ Hrow Hp) as (c & _ & Hk & Hwf).
  unfold wf_object. by rewrite <- Hk.
Qed.

Lemma tracks_faces (vals its : list JsObject) : tracks vals its -> faces vals its.
Proof.
  intros [_ Hal] i row Hrow Hp.
  destruct (Hal _ _ Hrow Hp) as (c & Hc & _ & Hk & Hwf). eauto.
Qed.

(** ** Keys of a record through the store's calls *)

Lemma keys_set_prop (k : string) (v : JsValue) (o : JsObject) :
  keys (set_prop k v o) = if decide (k ∈ keys o) then keys o else keys o ++ [k].
Proof.
  unfold keys. induction o as [|[k' v'] o IH]; cbn [set_prop].
  - rewrite decide_False; [done|]. by intros ?%elem_of_nil.
  - rewrite !fmap_cons. cbn [fst]. destruct (decide (k' = k)) as [->|Hne].
    + rewrite decide_True; [done|left].
    + rewrite fmap_cons, IH. cbn [fst]. destruct (decide (k ∈ o.*1)).
      * rewrite decide_True; [done|by right].
      * rewrite decide_False; [done|]. rewrite not_elem_of_cons. auto.
Qed.

Lemma set_prop_extends (k : string) (v : JsValue) (o : JsObject) :
  keys o `prefix_of` keys (set_prop k v o)
  /\ (wf_object o -> wf_object (set_prop k v o)).
Proof.
  unfold wf_object. rewrite keys_set_prop. case_decide as Hk; [by split|].
  split; [by apply prefix_app_r|]. intros Hwf.
  apply NoDup_app. split_and!; [done| |apply NoDup_singleton].
  intros x Hx ->%list_elem_of_singleton. done.
Qed.

Lemma spread_extends (o src : JsObject) :
  keys o `prefix_of` keys (spread o src)
  /\ (wf_object o -> wf_object (spread o src)).
Proof.
  unfold spread. revert o. induction src as [|[k v] src IH]; intros o; [done|].
  cbn [foldl fst snd].
  destruct (set_prop_extends k v o) as [Hpre Hwf].
  destruct (IH (set_prop k v o)) as [Hpre' Hwf'].
  split; [by etrans|auto].
Qed.

Lemma store_effect_lookup (now : Z) (row : JsObject) (its : list JsObject)
    (i : nat) (c : JsObject) :
  its !! i = Some c ->
  exists r, store_effect now row its !! i = Some r
            /\ keys c `prefix_of` keys r /\ (wf_object c -> wf_object r).
Proof.
  intros Hc. unfold store_effect. destruct (is_unpersisted row).
  - exists c. split; [by apply lookup_app_l_Some|done].
  - rewrite list_lookup_fmap, Hc. simpl.
    destruct (strict_eq (id_of c) (id_of row)); [|by eauto].
    eexists. split; [done|]. apply spread_extends.
Qed.

Lemma persisted_lookup (w : World) (n k : nat) (rows its : list JsObject)
    (i : nat) (c : JsObject) :
  its !! i = Some c ->
  exists r, persisted w n k rows its !! i = Some r
            /\ keys c `prefix_of` keys r /\ (wf_object c -> wf_object r).
Proof.
  revert n k its c. induction rows as [|row rows IH]; intros n k its c Hc.
  - destruct k; by eauto.
  - destruct k as [|k]; cbn [persisted]; [by eauto|].
    destruct (store_effect_lookup (Date_now w (S n)) row its i c Hc)
      as (r & Hr & Hpre & Hwf).
    destruct (IH (S n) k _ r Hr) as (r' & Hr' & Hpre' & Hwf').
    exists r'. split_and!; [done|by etrans|auto].
Qed.

(** ** When the submitted values equal the store's list *)

Lemma id_of_isEqual (a b : JsObject) :
  isEqual_object a b = true -> is_Some (id_of a) -> id_of b = id_of a.
Proof.
  intros Heq Hid. symmetry. apply isEqual_object_prop; [done|].
  by apply prop_is_Some.
Qed.

Lemma isEqual_object_length (a b : JsObject) :
  isEqual_object a b = true -> List.length (keys a) = List.length (keys b).
Proof.
  unfold isEqual_object. intros [Hlen _]%andb_prop.
  by apply bool_decide_eq_true in Hlen.
Qed.

(** When the persisted buffer rows face snapshot rows with their own keys
    and the store's list holds no record carrying the sentinel after the
    calls, submitted values that Formik finds equal to that list are that
    list. *)
Lemma isEqual_persisted (w : World) (n k : nat) (rows its vals : list JsObject) :
  let its' := persisted w n k rows its in
  faces vals its -> all_persisted its' ->
  isEqual vals its' = true -> vals = its'.
Proof.
  intros its' Hf Hall Heq.
  pose proof (isEqual_length _ _ Heq) as Hlen.
  apply list_eq. intros i.
  destruct (vals !! i) as [row|] eqn:Hrow.
  2:{ symmetry. apply lookup_ge_None. rewrite <- Hlen.
      by apply lookup_ge_None. }
  assert (is_Some (its' !! i)) as [r Hr].
  { apply lookup_lt_is_Some. rewrite <- Hlen. by eapply lookup_lt_Some. }
  pose proof (isEqual_lookup _ _ _ _ _ Heq Hrow Hr) as Hobj.
  rewrite Hr. f_equal.
  destruct (decide (id_of row = Some SENTINEL)) as [Hs|Hp].
  - exfalso. apply (proj1 (Forall_forall _ _) Hall r).
    + by eapply list_elem_of_lookup_2.
    + rewrite <- Hs. apply id_of_isEqual; [done|]. by rewrite Hs.
  - destruct (Hf _ _ Hrow Hp) as (c & Hc & Hk & Hwf).
    destruct (persisted_lookup w n k rows its i c Hc) as (r' & Hr' & Hpre & _).
    fold its' in Hr'. assert (r' = r) as -> by congruence.
    apply isEqual_object_eq; [done| |unfold wf_object; by rewrite <- Hk].
    rewrite <- Hk. apply prefix_length_eq; [done|].
    rewrite Hk. apply isEqual_object_length in Hobj. lia.
Qed.

(** ** C1: what a save sends and what it leaves *)



(** ** C2: a call throws *)

(** C2 (amended). When the call for the dirty row in position [j] throws,
    [save] has sent the requests for the rows up to and including that one
    and none for a later dirty index, and it shows the notification "Failed
    to save". On a form that started from the store's list: if the first
    call throws, store, Edit Buffer and dirty set are as before, so every
    dirty row stays dirty. If an earlier call settled and the snapshot
    tracked the buffer (distinct identifiers, persisted buffer rows facing
    their own record), the table has rendered with a changed list and the
    form was re-initialised from it: the Edit Buffer is the store's list, the
    dirty set holds the indexes of the store's records that carry the
    sentinel and nothing else, so the rows saved before the throw are clean
    and the remaining rows are not left dirty: their pending edits and the
    appended rows not yet created are gone. *)
Theorem save_aborts_on_throw (w : World) (cfg : CrudConfig) (st : State)
    (j : nat) :
  let vals := values st in
  let its := items st in
  let n := List.length (requests st) in
  let D := dirtyIndexes its vals in
  let rows := dirtyRows its vals in
  (j < List.length rows)%nat -> throws_at w n j ->
  let st' := save w cfg st in
  requests st' = requests st ++ (request_for (apiEndpoint cfg) <$> take (S j) rows)
  /\ toasts st' = toasts st ++ [toast_error "Failed to save"]
  /\ items st' = persisted w n j rows its
  /\ (initialValues st = its ->
      (j = 0%nat ->
       items st' = its /\ values st' = vals /\ initialValues st' = its
       /\ dirtyIndexes (items st') (values st') = D)
      /\ (tracks vals its -> (0 < j)%nat ->
          values st' = items st' /\ initialValues st' = items st'
          /\ (forall idx, idx ∈ dirtyIndexes (items st') (values st') <->
                exists (i : nat) (r : JsObject),
                  idx = Z.of_nat i /\ items st' !! i = Some r
                  /\ id_of r = Some SENTINEL)
          /\ ((forall m, Date_now w m <> 0%Z) -> all_persisted its ->
              dirtyIndexes (items st') (values st') = []))).
Proof.
  intros vals its n D rows Hj Hthrow st'.
  destruct (save_thrown w cfg st j Hj Hthrow)
    as (Hreqs & Hitems & Hform & Htoasts & _).
  fold vals its n rows st' in Hreqs, Hitems, Hform, Htoasts.
  split_and!; try done.
  intros Hinit. rewrite Hinit in Hform. split.
  - intros ->. destruct rows as [|row rows']; [simpl in Hj; lia|].
    cbn [rendered persisted] in Hform, Hitems. unfold reseed in Hform.
    cbn [snd] in Hform. rewrite isEqual_refl in Hform.
    injection Hform as Hv Hi. rewrite Hitems, Hv. done.
  - intros Htr Hpos.
    pose proof (rendered_tracks w vals D rows (dirtyRows_lookup its vals)
                  (StronglySorted_lt_NoDup _ (dirtyIndexes_sorted its vals))
                  j n its [] vals Htr) as Hrun.
    rewrite !app_nil_r in Hrun. rewrite Hrun in Hform; [|clear Hrun|done].
    2:{ intros idx row (i & row' & -> & Hrow' & Hd)%elem_of_dirtyIndexes.
        rewrite array_get_of_nat, Nat2Z.id. intros Hrow Hp.
        assert (row' = row) as -> by congruence.
        by destruct Hd as [Hs|Hne]. }
    destruct j as [|j]; [lia|]. rewrite <- Hitems in Hform.
    injection Hform as Hv Hi.
    assert (forall idx, idx ∈ dirtyIndexes (items st') (values st') <->
              exists (i : nat) (r : JsObject),
                idx = Z.of_nat i /\ items st' !! i = Some r
                /\ id_of r = Some SENTINEL) as Hdirty.
    { intros idx. rewrite Hv, elem_of_dirtyIndexes. unfold row_dirty.
      split; intros (i & r & Hidx & Hr & Hs); exists i, r;
        (split_and!; [done|done|]); [|by left].
      by destruct Hs. }
    split_and!; [done|done|exact Hdirty|].
    intros Hclock Hall. apply elem_of_nil_inv. intros idx Hin.
    apply Hdirty in Hin as (i & r & _ & Hr & Hs).
    assert (all_persisted (items st')) as Hall'.
    { rewrite Hitems. apply persisted_all_persisted; [|done|done].
      by apply faces_wf_rows, tracks_faces. }
    apply (proj1 (Forall_forall _ _) Hall' r); [|done].
    by eapply list_elem_of_lookup_2.
Qed.

Lemma save_aborts_on_throw_witness :
  let st := mounted [ann; bob] [ann_edited; bob_edited] in
  let st' := save world_second_throws userConfig st in
  throws_at world_second_throws 0 1
  /\ tracks (values st) (items st)
  /\ requests st'
     = [request_for "users" ann_edited; request_for "users" bob_edited]
  /\ toasts st' = [toast_error "Failed to save"]
  /\ values st' = items st'
  /\ dirtyIndexes (items st') (values st') = [].
Proof.
  intros st st'.
  assert (throws_at world_second_throws 0 1) as Hthrow.
  { split; [|done]. intros [|j] Hj; [done|lia]. }
  assert (tracks (values st) (items st)) as Htr.
  { split.
    - vm_compute. repeat constructor; set_solver.
    - intros [|[|i]] row [= <-] _; eexists; (split; [reflexivity|]);
        (split_and!; [done|done|]); vm_compute; repeat constructor;
        set_solver. }
  destruct (save_aborts_on_throw world_second_throws userConfig st 1)
    as (Hreqs & Htoasts & _ & Hform); [vm_compute; lia|done|].
  destruct (Hform eq_refl) as [_ Hlater].
  destruct (Hlater Htr) as (Hv & _ & _ & Hclean); [lia|].
  split_and!; [done|done|exact Hreqs|exact Htoasts|exact Hv|].
  apply Hclean.
  - intros m. cbn. lia.
  - repeat constructor; done.
Defined.

(** C2, as stated, fails. The page has loaded two users and both names were
    edited, so the form is dirty and both rows are in the dirty set. The
    first update settles and the second throws: "Failed to save" is shown,
    and the table, rendered with the changed list, has re-initialised the
    form from it. The second row, whose call threw, shows the store's value
    again and is not dirty: its edit is lost. *)
Lemma save_drops_remaining_edit :
  let loaded := mounted [ann; bob] [ann; bob] in
  let st := mounted [ann; bob] [ann_edited; bob_edited] in
  let st' := save world_second_throws userConfig st in
  (editField 0 "name" (JStr "Ann Leigh") loaded
     ≫= editField 1 "name" (JStr "Bob Rae")) = Some st
  /\ dirty st = true
  /\ dirtyIndexes (items st) (values st) = [0%Z; 1%Z]
  /\ requests st'
     = [request_for "users" ann_edited; request_for "users" bob_edited]
  /\ toasts st' = [toast_error "Failed to save"]
  /\ items st' = [ann_edited; bob]
  /\ values st' = [ann_edited; bob]
  /\ dirtyIndexes (items st') (values st') = [].
Proof. intros loaded st st'. split_and!; by vm_compute. Qed.

(** ** C3 and C7: saving with nothing to save *)

Lemma save_clean_fields (w : World) (cfg : CrudConfig) (st : State) :
  dirtyIndexes (items st) (values st) = [] ->
  requests (save w cfg st) = requests st
  /\ toasts (save w cfg st) = toasts st ++ [toast_info "No changes to save"]
  /\ items (save w cfg st) = items st
  /\ values (save w cfg st) = values st
  /\ initialValues (save w cfg st) = initialValues st.
Proof. intros HD. by rewrite (save_clean w cfg st HD). Qed.

(** C3. For every edit buffer, rows carrying the sentinel included, whose
    persisted rows face snapshot rows with their own keys: after [save]
    completes with every call settled, on a store that holds no record
    carrying the sentinel and with a clock that never reads 0, the Edit
    Buffer is the store's list the dirty set is taken against (the table has
    rendered with the new list and the form is re-initialised from it unless
    it equals it already), so saving again at once computes an empty dirty
    set, sends no request whatever the network would do, and signals "No
    changes to save". *)
Theorem save_again_sends_nothing (w w' : World) (cfg : CrudConfig)
    (st : State) :
  let vals := values st in
  let its := items st in
  let rows := dirtyRows its vals in
  faces vals its -> all_persisted its -> (forall m, Date_now w m <> 0%Z) ->
  all_settle w (List.length (requests st)) (List.length rows) ->
  let st1 := save w cfg st in
  (dirtyIndexes its vals <> [] ->
   values st1 = items st1 /\ initialValues st1 = items st1)
  /\ dirtyIndexes (items st1) (values st1) = []
  /\ requests (save w' cfg st1) = requests st1
  /\ toasts (save w' cfg st1) = toasts st1 ++ [toast_info "No changes to save"].
Proof.
  intros vals its rows Hf Hall Hclock Hsettle st1.
  assert (dirtyIndexes (items st1) (values st1) = []
          /\ (dirtyIndexes its vals <> [] ->
              values st1 = items st1 /\ initialValues st1 = items st1))
    as [HD Hsame].
  { destruct (decide (dirtyIndexes its vals = [])) as [HD|HD].
    - split; [|done]. subst st1. by rewrite (save_clean w cfg st HD).
    - destruct (save_settled w cfg st HD Hsettle) as (_ & Hi & Hv & Hinit & _).
      fold vals its rows st1 in Hi, Hv, Hinit.
      assert (all_persisted (items st1)) as Hall'.
      { rewrite Hi. apply persisted_all_persisted; [|done|done].
        by apply faces_wf_rows. }
      assert (values st1 = items st1 /\ initialValues st1 = items st1)
        as [Hv' Hinit'].
      { rewrite Hv, Hinit, Hi.
        destruct (isEqual vals _) eqn:Heq; [|done].
        rewrite Hi in Hall'.
        by rewrite <- (isEqual_persisted _ _ _ _ _ _ Hf Hall' Heq). }
      split; [|done]. rewrite Hv'. apply dirtyIndexes_clean.
      intros i row Hrow. apply not_row_dirty. split; [|done].
      apply (proj1 (Forall_forall _ _) Hall'). by eapply list_elem_of_lookup_2. }
  destruct (save_clean_fields w' cfg st1 HD) as (Hreqs & Htoasts & _).
  split_and!; done.
Qed.

(** A row is added and filled in, and the table is saved twice. *)
Lemma save_again_sends_nothing_witness :
  let st := mounted [ann; bob] [ann; bob; cara_draft] in
  let st1 := save world_up userConfig st in
  faces (values st) (items st)
  /\ requests st1 = [request_for "users" cara_draft]
  /\ values st1 = items st1
  /\ List.length (items st1) = 3%nat
  /\ requests (save world_down userConfig st1) = requests st1.
Proof.
  intros st st1.
  assert (faces (values st) (items st)) as Hf.
  { intros [|[|[|i]]] row [= <-] Hp; [..|done]; eexists;
      (split; [reflexivity|]); (split; [done|]);
      vm_compute; repeat constructor; set_solver. }
  destruct (save_again_sends_nothing world_up world_down userConfig st)
    as (Hsame & _ & Hreqs & _).
  - exact Hf.
  - repeat constructor; done.
  - intros m. cbn. lia.
  - by intros j _.
  - destruct Hsame as [Hv _]; [by vm_compute|].
    split_and!; [done|by vm_compute|exact Hv|by vm_compute|exact Hreqs].
Defined.

(** C7. For every edit buffer whose dirty set is empty (every row is the
    snapshot's row at its index and none carries the sentinel), [save] sends
    no request, whatever the network, and signals "No changes to save";
    store and buffer are as before. *)
Theorem save_nothing_to_save (w : World) (cfg : CrudConfig) (st : State) :
  (forall i row, values st !! i = Some row ->
     items st !! i = Some row /\ id_of row <> Some SENTINEL) ->
  dirtyIndexes (items st) (values st) = []
  /\ requests (save w cfg st) = requests st
  /\ toasts (save w cfg st) = toasts st ++ [toast_info "No changes to save"]
  /\ items (save w cfg st) = items st
  /\ values (save w cfg st) = values st.
Proof.
  intros Hclean.
  assert (dirtyIndexes (items st) (values st) = []) as HD.
  { apply dirtyIndexes_clean. intros i row Hrow. apply not_row_dirty.
    destruct (Hclean i row Hrow). done. }
  destruct (save_clean_fields w cfg st HD) as (? & ? & ? & ? & _). done.
Qed.

Lemma save_nothing_to_save_witness :
  let st := mounted [recordA; recordB] [recordA; recordB] in
  requests (save world_down userConfig st) = []
  /\ toasts (save world_down userConfig st)
     = [toast_info "No changes to save"].
Proof.
  intros st.
  destruct (save_nothing_to_save world_down userConfig st)
    as (_ & Hreqs & Htoasts & _).
  - intros [|[|i]] row [= <-]; done.
  - done.
Defined.

(** ** C4: identifiers of persisted records *)

Lemma update_keeps_ids (id : option JsValue) (item : JsObject)
    (prev : list JsObject) :
  wf_object item -> id_of item = None \/ id_of item = id ->
  id_of <$> ((fun i => if strict_eq (id_of i) id then spread i item else i)
               <$> prev)
  = id_of <$> prev.
Proof.
  intros Hwf Hid. rewrite <- list_fmap_compose. apply list_fmap_ext.
  intros _ i _. simpl. destruct (strict_eq (id_of i) id) eqn:Heq; [|done].
  apply strict_eq_true in Heq. unfold id_of in *. rewrite prop_spread by done.
  destruct Hid as [->| ->]; [done|]. by destruct id.
Qed.

Lemma filter_sublist_mono {A} (P : A -> Prop) `{!forall x, Decision (P x)}
    (l1 l2 : list A) :
  l1 `sublist_of` l2 -> filter P l1 `sublist_of` filter P l2.
Proof.
  induction 1 as [|x l1 l2 Hs IH|x l1 l2 Hs IH]; [done|..];
    rewrite ?filter_cons; destruct (decide (P x)); try done.
  - by constructor.
  - by constructor.
Qed.

(** C4 (amended). On a collection whose persisted records have pairwise
    distinct identifiers: [delete] keeps it so; [update(id, item)] keeps it so
    when [item] carries no identifier or the identifier it is addressed to,
    as the calls of the page's save handler do; [create] keeps it so when the
    clock reading it takes as the new identifier is not already an identifier
    in the collection. Records carrying the sentinel are not constrained. *)
Theorem store_keeps_persisted_ids_distinct (w : World) (endpoint : string)
    (st : State) :
  unique_persisted (items st) ->
  (forall id,
     unique_persisted (items (state_of (deleteItem w endpoint id st))))
  /\ (forall id item,
        wf_object item -> id_of item = None \/ id_of item = id ->
        unique_persisted (items (state_of (updateItem w endpoint id item st))))
  /\ (forall item,
        Some (JNum (Date_now w (S (List.length (requests st)))))
          ∉ id_of <$> items st ->
        unique_persisted (items (state_of (createItem w endpoint item st)))).
Proof.
  unfold unique_persisted. intros Hinv. split_and!.
  - intros id. unfold deleteItem, fetch.
    destruct (respond w _); cbn [state_of items setItems]; [done|..];
      (eapply sublist_NoDup in Hinv; [exact Hinv|]);
      apply filter_sublist_mono, fmap_sublist, sublist_filter.
  - intros id item Hwf Hid. unfold updateItem, fetch.
    destruct (respond w _); cbn [state_of items setItems]; [done|..];
      by rewrite update_keeps_ids.
  - intros item Hfresh. unfold createItem, fetch.
    destruct (respond w _); cbn [state_of items setItems requests]; [done|..];
      rewrite length_app, Nat.add_1_r; cbn [List.length];
      rewrite fmap_app, filter_app; (apply NoDup_app; split_and!; [done| |]).
    all: try (apply NoDup_filter; cbn; apply NoDup_singleton).
    all: intros x [_ Hx]%list_elem_of_filter [_ Hnew]%list_elem_of_filter;
      cbn in Hnew; rewrite id_of_set_id in Hnew;
      apply list_elem_of_singleton in Hnew; by subst x.
Qed.

Lemma store_keeps_persisted_ids_distinct_witness :
  let st := mounted [recordA; recordB] [recordA; recordB] in
  unique_persisted (items st)
  /\ unique_persisted
       (items (state_of (updateItem world_up "users" (Some (JNum 1))
                           recordA2 st)))
  /\ unique_persisted
       (items (state_of (createItem world_up "users" draftX st))).
Proof.
  intros st.
  assert (unique_persisted (items st)) as Hinv.
  { vm_compute. repeat constructor; set_solver. }
  destruct (store_keeps_persisted_ids_distinct world_up "users" st Hinv)
    as (_ & Hupd & Hnew).
  split_and!; [done|..].
  - apply Hupd; [|by right]. vm_compute. repeat constructor; set_solver.
  - apply Hnew. vm_compute. set_solver.
Defined.

(** C4, as stated, fails: two records created within the same millisecond
    receive the same client-generated identifier. *)
Lemma create_twice_same_identifier :
  let st1 := state_of (createItem world_same_ms "users" draftX (mounted [] [])) in
  let st2 := state_of (createItem world_same_ms "users" draftY st1) in
  unique_persisted (items st1)
  /\ items st2 = [[("id", JNum 1700000000000); ("name", JStr "X")];
                  [("id", JNum 1700000000000); ("name", JStr "Y")]]
  /\ ~ unique_persisted (items st2).
Proof.
  intros st1 st2. split_and!.
  - vm_compute. repeat constructor; set_solver.
  - by vm_compute.
  - vm_compute. intros Hnd. apply NoDup_cons in Hnd as [Hnin _]. set_solver.
Qed.

(** ** C5, C8, C9: deleting a row *)

Lemma deleteRow_unpersisted (w : World) (cfg : CrudConfig) (st : State)
    (i : nat) (row : JsObject) :
  values st !! i = Some row -> id_of row = Some SENTINEL ->
  deleteRow w cfg i ClickDelete st
  = Some (Resolved
            (remove i
               (toast (toast_confirm
                         ("Delete this "
                          +:+ slice_0_m1 (toLowerCase (name cfg)) +:+ "?")
                         5000) st))).
Proof.
  intros Hrow Hid. unfold deleteRow, clickDelete, handleDelete, confirmDelete.
  rewrite Hrow, Hid. by rewrite (proj2 (strict_eq_true _ _)).
Qed.

(** C5. For every row whose identifier is the sentinel, a confirmed deletion
    sends no request and removes the row from the buffer; in particular,
    appending the config's empty template (whose identifier is the sentinel)
    and deleting that row at once, with confirmation, sends no request and
    leaves buffer and store as they were. *)
Theorem delete_unpersisted_sends_nothing (w : World) (cfg : CrudConfig)
    (st : State) (i : nat) (row : JsObject) :
  (values st !! i = Some row -> id_of row = Some SENTINEL ->
   exists st', deleteRow w cfg i ClickDelete st = Some (Resolved st')
               /\ requests st' = requests st
               /\ values st' = delete i (values st)
               /\ items st' = items st)
  /\ (id_of (emptyItem cfg) = Some SENTINEL ->
      exists st', deleteRow w cfg (List.length (values st)) ClickDelete
                    (appendRow cfg st) = Some (Resolved st')
                  /\ requests st' = requests st
                  /\ values st' = values st
                  /\ items st' = items st).
Proof.
  split.
  - intros Hrow Hid. eexists.
    split; [by apply (deleteRow_unpersisted _ _ _ _ row)|].
    split_and!; reflexivity.
  - intros Hid. eexists. split.
    + apply (deleteRow_unpersisted _ _ _ _ (emptyItem cfg)); [|done].
      unfold appendRow, addRow, push. cbn [values setValues].
      by rewrite list_lookup_middle.
    + split_and!; try reflexivity.
      unfold appendRow, addRow, push, remove, toast.
      cbn [values setValues].
      by rewrite delete_middle, app_nil_r.
Qed.

Lemma delete_unpersisted_sends_nothing_witness :
  let st := mounted [recordA] [recordA] in
  id_of (emptyItem userConfig) = Some SENTINEL
  /\ id_of (emptyItem productConfig) = Some SENTINEL
  /\ exists st', deleteRow world_down userConfig 1 ClickDelete
                   (appendRow userConfig st) = Some (Resolved st')
                 /\ requests st' = [] /\ values st' = [recordA].
Proof.
  intros st. split_and!; [done|done|].
  destruct (delete_unpersisted_sends_nothing world_down userConfig st 0 recordA)
    as [_ Happend].
  destruct (Happend eq_refl) as (st' & Hdel & Hreqs & Hvals & _).
  exists st'. split_and!; done.
Defined.

(** A confirmed delete of a persisted row whose store call settles. *)
Lemma deleteRow_persisted (w : World) (cfg : CrudConfig) (st : State)
    (i : nat) (row : JsObject) :
  values st !! i = Some row -> id_of row <> Some SENTINEL ->
  respond w (List.length (requests st)) <> NetworkError ->
  let its' := filter (fun r => negb (strict_eq (id_of r) (id_of row)) = true)
                (items st) in
  exists st', deleteRow w cfg i ClickDelete st = Some (Resolved st')
              /\ items st' = its'
              /\ requests st'
                 = requests st
                   ++ [mkRequest DELETE
                         (API_URL +:+ "/" +:+ apiEndpoint cfg +:+ "/"
                          +:+ ToString (id_of row)) None]
              /\ values st'
                 = (if isEqual (initialValues st) its'
                    then delete i (values st) else its')
              /\ initialValues st'
                 = (if isEqual (initialValues st) its'
                    then initialValues st else its').
Proof.
  intros Hrow Hp Hres its'.
  unfold deleteRow, clickDelete, handleDelete, confirmDelete,
    handleDeleteItem, deleteItem, fetch.
  rewrite Hrow. rewrite (proj2 (strict_eq_false _ _)) by done.
  cbn [negb requests toast]. case_response w; [done|]. cbn [await].
  eexists. split; [reflexivity|].
  rewrite reinitialize_eq. unfold reseed.
  cbn [items values initialValues requests remove setValues setItems snd].
  fold its'. split_and!; try done; by destruct (isEqual _ _).
Qed.

(** C8 (amended). Once the user confirms deletion: a row carrying the
    sentinel is removed from the Edit Buffer with no store call; a persisted
    row is removed, after the store's delete was called, whenever that call
    settles, whatever the server answered: no record of the store carries
    its identifier any more, and the Edit Buffer is either the buffer without
    the row or, when the table finds its list changed, that list; when the
    call throws, nothing is removed and the row stays in the buffer. *)
Theorem confirmed_delete_removes_row (w : World) (cfg : CrudConfig)
    (st : State) (i : nat) (row : JsObject) :
  values st !! i = Some row ->
  let rq := mkRequest DELETE
              (API_URL +:+ "/" +:+ apiEndpoint cfg +:+ "/"
               +:+ ToString (id_of row)) None in
  (id_of row = Some SENTINEL ->
   exists st', deleteRow w cfg i ClickDelete st = Some (Resolved st')
               /\ values st' = delete i (values st)
               /\ requests st' = requests st)
  /\ (id_of row <> Some SENTINEL ->
      respond w (List.length (requests st)) <> NetworkError ->
      exists st', deleteRow w cfg i ClickDelete st = Some (Resolved st')
                  /\ values st'
                     = (if isEqual (initialValues st) (items st')
                        then delete i (values st) else items st')
                  /\ (id_of row ∉ (id_of <$> items st'))
                  /\ requests st' = requests st ++ [rq]
                  /\ items st'
                     = filter (fun r => negb (strict_eq (id_of r) (id_of row))
                                        = true) (items st))
  /\ (id_of row <> Some SENTINEL ->
      respond w (List.length (requests st)) = NetworkError ->
      exists st', deleteRow w cfg i ClickDelete st = Some (Rejected st')
                  /\ values st' = values st
                  /\ requests st' = requests st ++ [rq]
                  /\ items st' = items st).
Proof.
  intros Hrow rq. split_and!.
  - intros Hid. eexists.
    split; [by apply (deleteRow_unpersisted _ _ _ _ row)|].
    split; reflexivity.
  - intros Hp Hres.
    destruct (deleteRow_persisted w cfg st i row Hrow Hp Hres)
      as (st' & Hdel & Hitems & Hreqs & Hvals & _).
    exists st'. rewrite Hitems. split_and!; try done.
    intros (r & Hid & [Hr _]%list_elem_of_filter)%list_elem_of_fmap.
    apply negb_true_iff, strict_eq_false in Hr. congruence.
  - intros Hp Hres.
    unfold deleteRow, clickDelete, handleDelete, confirmDelete,
      handleDeleteItem, deleteItem, fetch.
    rewrite Hrow. rewrite (proj2 (strict_eq_false _ _)) by done.
    cbn [negb requests toast]. rewrite Hres.
    eexists. split; [reflexivity|]. split_and!; reflexivity.
Qed.

Lemma confirmed_delete_removes_row_witness :
  let st := mounted [recordA; recordB] [recordA; recordB] in
  exists st', deleteRow world_up userConfig 1 ClickDelete st
              = Some (Resolved st')
              /\ values st' = [recordA]
              /\ items st' = [recordA].
Proof.
  intros st.
  destruct (confirmed_delete_removes_row world_up userConfig st 1 recordB
              eq_refl) as (_ & Hsettles & _).
  destruct Hsettles as (st' & Hdel & Hvals & _ & _ & Hitems); [done|done|].
  exists st'. split_and!; [exact Hdel| |exact Hitems].
  rewrite Hvals, Hitems. reflexivity.
Defined.

(** C8, as stated, fails: the store's delete call throws and the row, whose
    deletion was confirmed, is still in the Edit Buffer. *)
Lemma confirmed_delete_throw_keeps_row :
  let st := mounted [recordA; recordB] [recordA; recordB] in
  exists st', deleteRow world_down userConfig 1 ClickDelete st
              = Some (Rejected st')
              /\ values st' = [recordA; recordB]
              /\ values st' !! 1%nat = Some recordB.
Proof. intros st. eexists. split_and!; reflexivity. Qed.

(** C9. For every row, when the confirmation prompt is cancelled or expires,
    no request is sent and the collection is unchanged: the row is still in
    the Edit Buffer, and the snapshot is as before. *)
Theorem unconfirmed_delete_changes_nothing (w : World) (cfg : CrudConfig)
    (st : State) (i : nat) (row : JsObject) (e : PromptOutcome) :
  values st !! i = Some row -> e <> ClickDelete ->
  exists st', deleteRow w cfg i e st = Some (Resolved st')
              /\ requests st' = requests st
              /\ values st' = values st
              /\ values st' !! i = Some row
              /\ items st' = items st
              /\ initialValues st' = initialValues st.
Proof.
  intros Hrow He. unfold deleteRow, clickDelete, handleDelete, confirmDelete.
  rewrite Hrow.
  destruct e; [done|..]; eexists; (split; [reflexivity|]);
    split_and!; done.
Qed.

Lemma unconfirmed_delete_changes_nothing_witness :
  let st := mounted [recordA; recordB] [recordA; recordB] in
  exists st', deleteRow world_up userConfig 1 Expired st = Some (Resolved st')
              /\ requests st' = []
              /\ values st' !! 1%nat = Some recordB
              /\ items st' = [recordA; recordB].
Proof.
  intros st.
  destruct (unconfirmed_delete_changes_nothing world_up userConfig st 1
              recordB Expired eq_refl)
    as (st' & Hdel & Hreqs & _ & Hrow & Hitems & _); [done|].
  exists st'. split_and!; [exact Hdel|exact Hreqs|exact Hrow|exact Hitems].
Defined.

(** ** C6: editing and reverting *)

Lemma set_prop_revert (f : string) (v0 v : JsValue) (row : JsObject) :
  prop f row = Some v0 -> set_prop f v0 (set_prop f v row) = row.
Proof.
  induction row as [|[k x] row IH]; cbn [prop set_prop]; [done|].
  destruct (decide (k = f)) as [->|Hne]; cbn [set_prop].
  - intros [= ->]. by rewrite decide_True.
  - intros Hv0. rewrite decide_False by done. by rewrite IH.
Qed.

(** C6. For every persisted row that is clean, editing one of its fields
    makes it dirty as soon as the value differs, and setting that field back
    to its snapshot value restores the buffer exactly: the row is not in the
    dirty set any more. The dirty set depends on the values of the buffer and
    of the snapshot only. *)
Theorem edit_then_revert_is_clean (st : State) (i : nat) (row : JsObject)
    (f : string) (v0 v : JsValue) :
  values st !! i = Some row -> items st !! i = Some row ->
  id_of row <> Some SENTINEL -> prop f row = Some v0 ->
  exists st1 st2,
    editField i f v st = Some st1
    /\ editField i f v0 st1 = Some st2
    /\ (v <> v0 -> Z.of_nat i ∈ dirtyIndexes (items st1) (values st1))
    /\ values st2 = values st
    /\ items st2 = items st
    /\ Z.of_nat i ∉ dirtyIndexes (items st2) (values st2).
Proof.
  intros Hrow Hsnap Hp Hv0.
  unfold editField, handleChange. rewrite Hrow.
  eexists _, _. split; [reflexivity|].
  cbn [values setValues items].
  rewrite list_lookup_alter_eq, Hrow. cbn [fmap option_fmap option_map].
  split; [reflexivity|].
  assert (alter (set_prop f v0) i (alter (set_prop f v) i (values st))
          = values st) as Hback.
  { apply list_eq. intros j. destruct (decide (j = i)) as [->|Hne].
    - rewrite !list_lookup_alter_eq, Hrow. simpl. by rewrite set_prop_revert.
    - by rewrite !list_lookup_alter_ne. }
  split_and!; cbn [values setValues items].
  - intros Hv. apply elem_of_dirtyIndexes. exists i, (set_prop f v row).
    split_and!; [done|by rewrite list_lookup_alter_eq, Hrow|].
    right. rewrite Hsnap. intros [= Heq].
    assert (prop f row = Some v) by (by rewrite Heq at 1; rewrite prop_set_prop_eq).
    congruence.
  - exact Hback.
  - reflexivity.
  - rewrite Hback. intros (j & row' & Hj & Hrow' & Hd)%elem_of_dirtyIndexes.
    apply Nat2Z.inj in Hj. subst j.
    apply (proj2 (not_row_dirty (items st) i row')); [|done].
    split; congruence.
Qed.

Lemma edit_then_revert_is_clean_witness :
  let st := mounted [recordA; recordB] [recordA; recordB] in
  exists st1 st2,
    editField 0 "name" (JStr "A2") st = Some st1
    /\ editField 0 "name" (JStr "A") st1 = Some st2
    /\ 0%Z ∈ dirtyIndexes (items st1) (values st1)
    /\ 0%Z ∉ dirtyIndexes (items st2) (values st2).
Proof.
  intros st.
  destruct (edit_then_revert_is_clean st 0 recordA "name" (JStr "A")
              (JStr "A2"))
    as (st1 & st2 & H1 & H2 & Hdirty & _ & _ & Hclean); [done..|].
  exists st1, st2. split_and!; [done|done| |done].
  by apply Hdirty.
Defined.

(** ** C10: loading without a transformer *)

(** C10. For every list the server answers with, [load] without a
    transformer leaves in the collection exactly the first five records of
    the response, in their order (all of them if there are fewer); the
    records beyond are dropped and no error is raised. *)
Theorem load_keeps_first_five (w : World) (cfg : CrudConfig) (st : State)
    (data : list JsObject) :
  respond w (List.length (requests st)) = Responded data ->
  let st' := load w cfg None st in
  items st' = take 5 data
  /\ (List.length (items st') <= 5)%nat
  /\ items st' `prefix_of` data
  /\ (forall i, items st' !! i = if decide (i < 5)%nat then data !! i else None)
  /\ error st' = error st
  /\ toasts st' = toasts st
  /\ loading st' = false.
Proof.
  intros Hres st'. subst st'. unfold load, fetchItems, fetch. rewrite Hres.
  cbn [transformed items error toasts loading setItems setLoading].
  split_and!; try done.
  - rewrite length_take. lia.
  - apply prefix_take.
  - intros i. case_decide.
    + by apply lookup_take_lt.
    + apply lookup_take_ge. lia.
Qed.

Lemma load_keeps_first_five_witness :
  items (load world_seven userConfig None initial_state) = take 5 seven
  /\ List.length (items (load world_seven userConfig None initial_state))
     = 5%nat.
Proof.
  destruct (load_keeps_first_five world_seven userConfig initial_state seven
              eq_refl) as (Hitems & _).
  split; [exact Hitems|]. by rewrite Hitems.
Defined.

(** * Further properties of the store *)

Lemma createItem_settles (w : World) (ep : string) (item : JsObject)
    (st : State) :
  respond w (List.length (requests st)) <> NetworkError ->
  items (state_of (createItem w ep item st))
  = items st
    ++ [set_prop "id" (JNum (Date_now w (S (List.length (requests st))))) item].
Proof.
  intros Hres. unfold createItem, fetch.
  case_response w; [done|]. cbn [state_of items setItems requests].
  by rewrite length_app, Nat.add_1_r.
Qed.

Lemma deleteItem_settles (w : World) (ep : string) (id : option JsValue)
    (st : State) :
  respond w (List.length (requests st)) <> NetworkError ->
  items (state_of (deleteItem w ep id st))
  = filter (fun i => negb (strict_eq (id_of i) id) = true) (items st).
Proof.
  intros Hres. unfold deleteItem, fetch. by case_response w.
Qed.

Lemma keeps_other_ids (id : option JsValue) (r : JsObject) :
  negb (strict_eq (id_of r) id) = true <-> id_of r <> id.
Proof. by rewrite negb_true_iff, strict_eq_false. Qed.

Lemma filter_keeps_all {A} (P : A -> Prop) `{!forall x, Decision (P x)}
    (l : list A) :
  Forall P l -> filter P l = l.
Proof.
  induction 1 as [|x l Hx Hl IH]; [done|].
  by rewrite filter_cons_True, IH.
Qed.

(** X1. Creating a record and then deleting it by the identifier it was given
    restores the collection, provided both calls settle and the identifier
    (the clock reading) was not in use. *)
Theorem create_then_delete_restores (w : World) (ep : string)
    (item : JsObject) (st : State) :
  let n := List.length (requests st) in
  let now := Date_now w (S n) in
  respond w n <> NetworkError -> respond w (S n) <> NetworkError ->
  Some (JNum now) ∉ (id_of <$> items st) ->
  let st1 := state_of (createItem w ep item st) in
  id_of <$> items st1 = (id_of <$> items st) ++ [Some (JNum now)]
  /\ items (state_of (deleteItem w ep (Some (JNum now)) st1)) = items st.
Proof.
  intros n now Hres1 Hres2 Hfresh st1.
  assert (items st1
          = items st ++ [set_prop "id" (JNum now) item]) as Hcreated.
  { by apply createItem_settles. }
  assert (List.length (requests st1) = S n) as Hlen.
  { subst st1. unfold createItem, fetch.
    case_response w; cbn [state_of requests setItems];
      by rewrite length_app, Nat.add_1_r. }
  split.
  - by rewrite Hcreated, fmap_app; cbn; rewrite id_of_set_id.
  - rewrite deleteItem_settles by (by rewrite Hlen).
    rewrite Hcreated, filter_app, filter_keeps_all.
    + rewrite filter_cons_False, filter_nil, app_nil_r; [done|].
      rewrite keeps_other_ids, id_of_set_id. tauto.
    + apply Forall_forall. intros r Hr. apply keeps_other_ids.
      intros Hid. apply Hfresh. rewrite <- Hid.
      by apply list_elem_of_fmap_2.
Qed.

Lemma create_then_delete_restores_witness :
  let st := mounted [recordA; recordB] [recordA; recordB] in
  let st1 := state_of (createItem world_up "users" draftX st) in
  items (state_of (deleteItem world_up "users" (Some (JNum 1700000000001)) st1))
  = [recordA; recordB].
Proof.
  intros st st1.
  destruct (create_then_delete_restores world_up "users" draftX st)
    as [_ Hback]; [done|done| |exact Hback].
  vm_compute. set_solver.
Defined.

(** X2. A settled delete removes every record carrying the identifier and no
    other, keeping the order of the rest; deleting the same identifier again
    changes nothing more. *)
Theorem delete_removes_every_match (w w' : World) (ep : string)
    (id : option JsValue) (st : State) :
  respond w (List.length (requests st)) <> NetworkError ->
  let st1 := state_of (deleteItem w ep id st) in
  (forall r, r ∈ items st1 <-> r ∈ items st /\ id_of r <> id)
  /\ (items st1 `sublist_of` items st)
  /\ (id ∉ (id_of <$> items st1))
  /\ items (state_of (deleteItem w' ep id st1)) = items st1.
Proof.
  intros Hres st1.
  assert (items st1
          = filter (fun i => negb (strict_eq (id_of i) id) = true) (items st))
    as Hitems by (by apply deleteItem_settles).
  assert (forall r, r ∈ items st1 <-> r ∈ items st /\ id_of r <> id) as Hin.
  { intros r. rewrite Hitems, list_elem_of_filter, keeps_other_ids. tauto. }
  split_and!.
  - exact Hin.
  - rewrite Hitems. apply sublist_filter.
  - intros (r & Hid & Hr%Hin)%list_elem_of_fmap. destruct Hr. congruence.
  - unfold deleteItem, fetch.
    case_response w'; cbn [state_of items setItems]; [done|].
    apply filter_keeps_all, Forall_forall. intros r Hr%Hin.
    apply keeps_other_ids. tauto.
Qed.

Lemma delete_removes_every_match_witness :
  let st := mounted [recordA; recordB; recordA2] [] in
  let st1 := state_of (deleteItem world_up "users" (Some (JNum 1)) st) in
  items st1 = [recordB] /\ Some (JNum 1) ∉ (id_of <$> items st1).
Proof.
  intros st st1.
  destruct (delete_removes_every_match world_up world_up "users"
              (Some (JNum 1)) st) as (_ & _ & Hgone & _); [done|].
  split; [reflexivity|exact Hgone].
Defined.

Lemma updateItem_items (w : World) (ep : string) (id : option JsValue)
    (item : JsObject) (st : State) :
  items (state_of (updateItem w ep id item st))
  = if decide (respond w (List.length (requests st)) = NetworkError)
    then items st
    else (fun i => if strict_eq (id_of i) id then spread i item else i)
           <$> items st.
Proof. unfold updateItem, fetch. by case_response w. Qed.

(** X3. An update touches only the records it is addressed to: the
    collection keeps its length, every record with another identifier stays
    where it is, and a settled update replaces each addressed record by
    itself overlaid with the item. When no record carries the identifier the
    PUT is still sent and the collection is unchanged. *)
Theorem update_touches_only_addressed (w : World) (ep : string)
    (id : option JsValue) (item : JsObject) (st : State) :
  let st1 := state_of (updateItem w ep id item st) in
  List.length (items st1) = List.length (items st)
  /\ (forall i r, items st !! i = Some r -> id_of r <> id ->
        items st1 !! i = Some r)
  /\ (respond w (List.length (requests st)) <> NetworkError ->
      forall i r, items st !! i = Some r -> id_of r = id ->
        items st1 !! i = Some (spread r item))
  /\ (id ∉ (id_of <$> items st) ->
      items st1 = items st
      /\ requests st1
         = requests st
           ++ [mkRequest PUT
                 (API_URL +:+ "/" +:+ ep +:+ "/" +:+ ToString id)
                 (Some (JSON_stringify item))]).
Proof.
  intros st1. subst st1. rewrite updateItem_items. split_and!.
  - case_response w; [done|]. by rewrite length_fmap.
  - intros i r Hr Hid. case_response w; [done|].
    rewrite list_lookup_fmap, Hr. simpl.
    by rewrite (proj2 (strict_eq_false _ _)).
  - intros Hres i r Hr Hid. case_response w; [done|].
    rewrite list_lookup_fmap, Hr. simpl.
    by rewrite (proj2 (strict_eq_true _ _)).
  - intros Hnone. split.
    + case_response w; [done|].
      apply list_eq. intros i. rewrite list_lookup_fmap.
      destruct (items st !! i) as [r|] eqn:Hr; [|done]. simpl.
      rewrite (proj2 (strict_eq_false _ _)); [done|].
      intros Hid. apply Hnone. rewrite <- Hid.
      apply list_elem_of_fmap_2. by eapply list_elem_of_lookup_2.
    + unfold updateItem, fetch. by case_response w.
Qed.

Lemma update_touches_only_addressed_witness :
  let st := mounted [recordA; recordB] [] in
  let st1 := state_of (updateItem world_up "users" (Some (JNum 7)) recordA2 st) in
  items st1 = [recordA; recordB] /\ List.length (requests st1) = 1%nat.
Proof.
  intros st st1.
  destruct (update_touches_only_addressed world_up "users" (Some (JNum 7))
              recordA2 st) as (_ & _ & _ & Hmiss).
  destruct Hmiss as [Hsame Hreq]; [vm_compute; set_solver|].
  split; [exact Hsame|]. unfold st1. by rewrite Hreq.
Defined.

Lemma set_prop_same (k : string) (v : JsValue) (o : JsObject) :
  prop k o = Some v -> set_prop k v o = o.
Proof.
  induction o as [|[k' v'] o IH]; cbn [prop set_prop]; [done|].
  case_decide; [by intros [= ->]|]. intros Hv. by rewrite IH.
Qed.

Lemma spread_same (o src : JsObject) :
  Forall (fun kv => prop kv.1 o = Some kv.2) src -> spread o src = o.
Proof.
  unfold spread. induction 1 as [|[k v] src Hkv _ IH]; [done|].
  cbn [foldl fst snd]. simpl in Hkv. by rewrite set_prop_same.
Qed.

Lemma prop_elem (k : string) (v : JsValue) (o : JsObject) :
  wf_object o -> (k, v) ∈ o -> prop k o = Some v.
Proof.
  unfold wf_object, keys. induction o as [|[k' v'] o IH]; [by intros _ ?%elem_of_nil|].
  rewrite fmap_cons, NoDup_cons. intros [Hfresh Hwf] Hin. cbn [prop].
  apply elem_of_cons in Hin as [[= -> ->]|Hin]; [by rewrite decide_True|].
  case_decide as Hk; [|by apply IH]. subst k'. exfalso. apply Hfresh.
  by apply (list_elem_of_fmap_2 fst) in Hin.
Qed.

(** Overlaying the same well-formed item twice is overlaying it once. *)
Lemma spread_idem (o src : JsObject) :
  wf_object src -> spread (spread o src) src = spread o src.
Proof.
  intros Hwf. apply spread_same, Forall_forall. intros [k v] Hin. simpl.
  rewrite prop_spread by done. by rewrite (prop_elem k v src).
Qed.

(** X4. Updating is idempotent: when the item is well formed and carries no
    identifier or the one it is addressed to, sending the same update a
    second time leaves the collection as the first one left it. *)
Theorem update_twice_is_update_once (w w' : World) (ep : string)
    (id : option JsValue) (item : JsObject) (st : State) :
  wf_object item -> id_of item = None \/ id_of item = id ->
  respond w (List.length (requests st)) <> NetworkError ->
  let st1 := state_of (updateItem w ep id item st) in
  items (state_of (updateItem w' ep id item st1)) = items st1.
Proof.
  intros Hwf Hid Hres st1.
  rewrite (updateItem_items w'). case_response w'; [done|].
  subst st1. rewrite updateItem_items. case_response w; [done|].
  rewrite <- list_fmap_compose. apply list_fmap_ext. intros _ r _. simpl.
  destruct (strict_eq (id_of r) id) eqn:Hr; [|by rewrite Hr].
  assert (id_of (spread r item) = id_of r) as Hsame.
  { apply strict_eq_true in Hr. unfold id_of in *. rewrite prop_spread by done.
    destruct Hid as [->| ->]; [done|]. by destruct id. }
  rewrite Hsame, Hr. by apply spread_idem.
Qed.

Lemma update_twice_is_update_once_witness :
  let st := mounted [recordA; recordB] [] in
  let st1 := state_of (updateItem world_up "users" (Some (JNum 1)) recordA2 st) in
  items st1 = [recordA2; recordB]
  /\ items (state_of (updateItem world_up "users" (Some (JNum 1)) recordA2 st1))
     = [recordA2; recordB].
Proof.
  intros st st1.
  assert (items st1 = [recordA2; recordB]) as H1 by reflexivity.
  split; [exact H1|]. rewrite <- H1.
  apply (update_twice_is_update_once world_up world_up "users"
           (Some (JNum 1)) recordA2 st); [|by right|done].
  vm_compute. repeat constructor; set_solver.
Defined.

(** * Further properties of the table *)

Lemma dirtyIndexes_length_le (its vals : list JsObject) :
  (List.length (dirtyIndexes its vals) <= List.length vals)%nat.
Proof.
  unfold dirtyIndexes. etrans; [apply length_filter|]. by rewrite length_imap.
Qed.

Lemma request_for_method (ep : string) (row : JsObject) :
  method (request_for ep row) = if is_unpersisted row then POST else PUT.
Proof. unfold request_for. by destruct (is_unpersisted row). Qed.

Lemma settled_le (w : World) (n : nat) (rows : list JsObject) :
  (settled w n rows <= List.length rows)%nat.
Proof.
  revert n. induction rows as [|row rows IH]; intros n; simpl; [done|].
  specialize (IH (S n)). destruct (respond w n); lia.
Qed.

(** What a save with something to save leaves, whatever the network does. *)
Lemma save_dirty_outcome (w : World) (cfg : CrudConfig) (st : State) :
  let D := dirtyIndexes (items st) (values st) in
  let rows := dirtyRows (items st) (values st) in
  let st' := save w cfg st in
  D <> [] ->
  (exists m, requests st'
             = requests st ++ (request_for (apiEndpoint cfg) <$> take m rows))
  /\ isSubmitting st' = false
  /\ loading st' = loading st
  /\ error st' = error st
  /\ savingIndexes st' = ∅
  /\ isEqual (initialValues st') (items st') = true
  /\ ((values st' = values st /\ initialValues st' = initialValues st)
      \/ values st' = initialValues st').
Proof.
  intros D rows st' HD. subst st'. rewrite (save_dirty w cfg st HD).
  destruct (save_loop_run w cfg st)
    as (Hres & Hitems & Hreqs & Hsav & Hform & _ & Hl & He).
  fold D rows in Hres, Hitems, Hreqs, Hsav, Hform.
  set (k := settled w (List.length (requests st)) rows) in *.
  pose proof (settled_le w (List.length (requests st)) rows) as Hk.
  fold k in Hk.
  destruct (save_rows _ _ _ _) as [s|s]; cbn [state_of is_resolved] in *.
  - symmetry in Hres. apply bool_decide_eq_true in Hres.
    rewrite reinitialize_eq. unfold reseed.
    cbn [items loading error values initialValues isSubmitting savingIndexes
         toasts requests setSubmitting toast resetForm snd fst].
    split_and!; [eauto|by destruct (isEqual _ _)|done|done| | |].
    + rewrite Hsav, Hres. subst rows. rewrite dirtyRows_length. fold D.
      rewrite firstn_all. set_solver.
    + destruct (isEqual (values st) (items s)) eqn:Heq; cbn [snd];
        [done|apply isEqual_refl].
    + right. by destruct (isEqual (values st) (items s)).
  - symmetry in Hres. apply bool_decide_eq_false in Hres.
    assert (k < List.length rows)%nat as Hlt by lia.
    pose proof (rendered_settled w (List.length (requests st)) k rows
                  (items st) (values st, initialValues st) Hlt) as Hset.
    pose proof (rendered_cases w (List.length (requests st)) k rows
                  (items st) (values st, initialValues st)) as Hcases.
    rewrite <- Hform in Hset, Hcases. rewrite <- Hitems in Hset.
    cbn [fst snd] in Hset, Hcases.
    rewrite reinitialize_settled by done.
    cbn [items loading error values initialValues isSubmitting savingIndexes
         toasts requests setSubmitting toast setSavingIndexes].
    split_and!; [eauto|done|done|done|done|done|].
    destruct Hcases as [[= ? ?]|?]; auto.
Qed.

(** X5. Whatever the network does, [save] ends with the form no longer
    submitting; when nothing was dirty the Edit Buffer, Formik's initial
    values and the saving marks are untouched. When something was dirty no
    row is left marked as saving, Formik's initial values are, as Formik
    compares, the store's list, and the Edit Buffer either equals them (the
    form was reset) or is still the submitted one, with the initial values
    it had. *)
Theorem save_leaves_form_settled (w : World) (cfg : CrudConfig)
    (st : State) :
  let D := dirtyIndexes (items st) (values st) in
  let st' := save w cfg st in
  isSubmitting st' = false
  /\ loading st' = loading st
  /\ error st' = error st
  /\ savingIndexes st' = (if decide (D = []) then savingIndexes st else ∅)
  /\ (if decide (D = [])
      then values st' = values st /\ initialValues st' = initialValues st
      else isEqual (initialValues st') (items st') = true
           /\ ((values st' = values st /\ initialValues st' = initialValues st)
               \/ values st' = initialValues st')).
Proof.
  intros D st'. subst st'. case_decide as HD.
  - by rewrite (save_clean w cfg st HD).
  - destruct (save_dirty_outcome w cfg st HD)
      as (_ & Hsub & Hl & He & Hsav & Hset & Hform).
    split_and!; done.
Qed.

(** X6. Whatever the network does, the requests of a [save] are an initial
    segment of the requests for the dirty rows, taken in index order: each is
    a POST or a PUT, and there are no more of them than rows in the
    buffer. *)
Theorem save_sends_creates_and_updates_only (w : World) (cfg : CrudConfig)
    (st : State) :
  exists sent,
    requests (save w cfg st) = requests st ++ sent
    /\ sent `prefix_of`
         (request_for (apiEndpoint cfg) <$> dirtyRows (items st) (values st))
    /\ Forall (fun rq => method rq = POST \/ method rq = PUT) sent
    /\ (List.length sent <= List.length (values st))%nat.
Proof.
  assert (forall m,
    let sent := request_for (apiEndpoint cfg)
                  <$> take m (dirtyRows (items st) (values st)) in
    sent `prefix_of`
      (request_for (apiEndpoint cfg) <$> dirtyRows (items st) (values st))
    /\ Forall (fun rq => method rq = POST \/ method rq = PUT) sent
    /\ (List.length sent <= List.length (values st))%nat) as Hsent.
  { intros m sent. subst sent. split_and!.
    - rewrite fmap_take. apply prefix_take.
    - apply Forall_fmap, Forall_forall. intros row _. simpl.
      rewrite request_for_method. destruct (is_unpersisted row); auto.
    - rewrite length_fmap, length_take, dirtyRows_length.
      pose proof (dirtyIndexes_length_le (items st) (values st)). lia. }
  destruct (decide (dirtyIndexes (items st) (values st) = [])) as [HD|HD].
  - exists []. rewrite (save_clean w cfg st HD), app_nil_r.
    split_and!; [done|apply prefix_nil|constructor|simpl; lia].
  - destruct (save_dirty_outcome w cfg st HD) as ([m Hreqs] & _).
    exists (request_for (apiEndpoint cfg)
              <$> take m (dirtyRows (items st) (values st))).
    split; [exact Hreqs|apply Hsent].
Qed.

(** ** Every unpersisted row is created again by every save *)

Lemma dirty_scan_rows (P : nat -> JsObject -> bool) (pre vals : list JsObject) :
  omap (array_get (pre ++ vals))
    (filter (fun idx => idx ≠ (-1)%Z)
       (imap (fun idx item =>
                if P (List.length pre + idx)%nat item
                then Z.of_nat (List.length pre + idx) else (-1)%Z) vals))
  = omap id (imap (fun idx item =>
                     if P (List.length pre + idx)%nat item
                     then Some item else None) vals).
Proof.
  revert pre. induction vals as [|row vals IH]; intros pre; [done|].
  rewrite !imap_cons. rewrite Nat.add_0_r.
  specialize (IH (pre ++ [row])).
  rewrite <- (assoc_L (++)) in IH. simpl in IH.
  rewrite length_app in IH. simpl in IH.
  erewrite (imap_ext _ (fun idx item =>
     if P (List.length pre + 1 + idx)%nat item
     then Z.of_nat (List.length pre + 1 + idx) else (-1)%Z)) by
    (intros; simpl; by replace (List.length pre + S i)%nat
                         with (List.length pre + 1 + i)%nat by lia).
  erewrite (imap_ext (_ ∘ S) (fun idx item =>
     if P (List.length pre + 1 + idx)%nat item then Some item else None)) by
    (intros; simpl; by replace (List.length pre + S i)%nat
                         with (List.length pre + 1 + i)%nat by lia).
  rewrite filter_cons. destruct (P (List.length pre) row).
  - rewrite decide_True by lia. cbn [omap list_omap].
    rewrite array_get_of_nat, list_lookup_middle by done. simpl.
    by rewrite IH.
  - rewrite decide_False by lia. simpl. by rewrite IH.
Qed.

Lemma dirtyRows_scan (its vals : list JsObject) :
  dirtyRows its vals
  = omap id (imap (fun idx item =>
                     if is_unpersisted item || differs its item idx
                     then Some item else None) vals).
Proof.
  apply (dirty_scan_rows
           (fun idx item => is_unpersisted item || differs its item idx)
           [] vals).
Qed.

Lemma scan_keeps_selected (Q : JsObject -> bool) (P : nat -> JsObject -> bool)
    (vals : list JsObject) :
  (forall i row, Q row = true -> P i row = true) ->
  filter (fun row => Q row = true)
    (omap id (imap (fun idx item => if P idx item then Some item else None)
                   vals))
  = filter (fun row => Q row = true) vals.
Proof.
  revert P. induction vals as [|row vals IH]; intros P HQP; [done|].
  rewrite imap_cons. cbn [omap list_omap].
  specialize (IH (P ∘ S) (fun i row HQ => HQP (S i) row HQ)).
  destruct (Q row) eqn:HQ.
  - rewrite (HQP 0%nat row HQ). cbn [id option_map fmap].
    rewrite !filter_cons_True by done. f_equal. exact IH.
  - rewrite (filter_cons_False _ row vals) by (by rewrite HQ).
    destruct (P 0%nat row); cbn [id]; [|exact IH].
    rewrite filter_cons_False by (by rewrite HQ). exact IH.
Qed.

Lemma filter_fmap_commute {A B} (f : A -> B) (P : B -> Prop)
    `{!forall y, Decision (P y)} (l : list A) :
  filter P (f <$> l) = f <$> filter (fun x => P (f x)) l.
Proof.
  induction l as [|x l IH]; [done|].
  rewrite fmap_cons, !filter_cons. case_decide; simpl; by rewrite IH.
Qed.

(** X7. When every call of a [save] settles, its POST requests are exactly
    the requests for the buffer rows that carry the sentinel, all of them
    and in buffer order, whatever the snapshot holds. *)
Theorem save_creates_every_unpersisted_row (w : World) (cfg : CrudConfig)
    (st : State) :
  all_settle w (List.length (requests st))
             (List.length (dirtyRows (items st) (values st))) ->
  exists sent,
    requests (save w cfg st) = requests st ++ sent
    /\ filter (fun rq => is_POST rq = true) sent
       = request_for (apiEndpoint cfg)
           <$> filter (fun row => is_unpersisted row = true) (values st).
Proof.
  intros Hall.
  destruct (save_all_settle w cfg st Hall) as (Hreqs & _).
  eexists. split; [exact Hreqs|].
  rewrite filter_fmap_commute.
  rewrite (list_filter_iff _ (fun row => is_unpersisted row = true)).
  - f_equal. rewrite dirtyRows_scan. apply scan_keeps_selected.
    intros i row ->. done.
  - intros row. unfold is_POST. rewrite request_for_method.
    destruct (is_unpersisted row); by rewrite ?bool_decide_eq_true.
Qed.

Lemma save_creates_every_unpersisted_row_witness :
  let st := mounted [recordA] [recordA2; draftX; draftY] in
  exists sent,
    requests (save world_up userConfig st) = sent
    /\ filter (fun rq => is_POST rq = true) sent
       = [request_for "users" draftX; request_for "users" draftY].
Proof.
  intros st.
  destruct (save_creates_every_unpersisted_row world_up userConfig st)
    as (sent & Hreqs & Hposts); [by intros j _|].
  exists sent. split; [exact Hreqs|exact Hposts].
Defined.

(** ** Deleting a persisted row re-initialises the form *)

(** X8. A confirmed delete of a persisted row whose record the store holds,
    the store call settling, discards every unsaved change of the table:
    the table renders with the shorter list and the form is re-initialised
    from it, so the Edit Buffer is the store's list without that record,
    the rows added but not yet saved and the pending edits of the other rows
    are gone, and the form is not dirty. *)
Theorem confirmed_delete_discards_unsaved (w : World) (cfg : CrudConfig)
    (st : State) (i : nat) (row : JsObject) :
  isEqual (initialValues st) (items st) = true ->
  values st !! i = Some row -> id_of row <> Some SENTINEL ->
  id_of row ∈ (id_of <$> items st) ->
  respond w (List.length (requests st)) <> NetworkError ->
  exists st', deleteRow w cfg i ClickDelete st = Some (Resolved st')
              /\ items st'
                 = filter (fun r => negb (strict_eq (id_of r) (id_of row))
                                    = true) (items st)
              /\ (List.length (items st') < List.length (items st))%nat
              /\ values st' = items st'
              /\ initialValues st' = items st'
              /\ dirty st' = false.
Proof.
  intros Hset Hrow Hp Hin Hres.
  destruct (deleteRow_persisted w cfg st i row Hrow Hp Hres)
    as (st' & Hdel & Hitems & _ & Hvals & Hinit).
  set (its' := filter (fun r => negb (strict_eq (id_of r) (id_of row)) = true)
                 (items st)) in *.
  assert (List.length its' < List.length (items st))%nat as Hlen.
  { subst its'. apply list_elem_of_fmap in Hin as (r & Hid & Hr).
    clear -Hid Hr.
    induction (items st) as [|x l IH]; [by apply elem_of_nil in Hr|].
    rewrite filter_cons. apply elem_of_cons in Hr as [<-|Hr].
    - rewrite decide_False.
      + pose proof (length_filter
           (fun r0 => negb (strict_eq (id_of r0) (id_of row)) = true) l).
        simpl. lia.
      + rewrite keeps_other_ids. auto.
    - specialize (IH Hr). case_decide; simpl; lia. }
  assert (isEqual (initialValues st) its' = false) as Hne.
  { destruct (isEqual _ its') eqn:Heq; [|done].
    apply isEqual_length in Heq. apply isEqual_length in Hset. lia. }
  rewrite Hne in Hvals, Hinit.
  exists st'. rewrite Hitems. split_and!; try done.
  unfold dirty. by rewrite Hvals, Hinit, isEqual_refl.
Qed.

Lemma confirmed_delete_discards_unsaved_witness :
  let st := mounted [ann; bob] [ann; bob_edited; cara_draft] in
  exists st', deleteRow world_up userConfig 0 ClickDelete st
              = Some (Resolved st')
              /\ items st' = [bob]
              /\ values st' = [bob].
Proof.
  intros st.
  destruct (confirmed_delete_discards_unsaved world_up userConfig st 0 ann)
    as (st' & Hdel & Hitems & _ & Hvals & _);
    [by vm_compute|done|done|vm_compute; set_solver|done|].
  exists st'. split_and!; [exact Hdel|exact Hitems|].
  by rewrite Hvals, Hitems.
Defined.

(** ** The page handler's loop on a missing element *)

(** X9. [handleSave] works through its indexes in order: when the calls for
    the leading indexes settle and the next index has no element
    ([items[idx]] is [undefined]), the handler rejects there, having sent the
    requests for the leading rows and none for that index or any later
    one. *)
Theorem handleSave_stops_at_missing_element (w : World) (ep : string)
    (its : list JsObject) (pre : list Z) (rows : list JsObject) (idx : Z)
    (post : list Z) (st : State) :
  Forall2 (fun i row => array_get its i = Some row) pre rows ->
  array_get its idx = None ->
  all_settle w (List.length (requests st)) (List.length pre) ->
  exists st', handleSave w ep its (pre ++ idx :: post) st = Rejected st'
              /\ requests st' = requests st ++ (request_for ep <$> rows).
Proof.
  intros Hpre Hidx. revert st.
  induction Hpre as [|i row pre rows Hrow Hpre IH]; intros st Hall.
  - exists st. simpl. rewrite Hidx. by rewrite app_nil_r.
  - cbn [app handleSave]. rewrite Hrow.
    fold (persist_row w ep row st).
    assert (respond w (List.length (requests st)) <> NetworkError) as Hres.
    { specialize (Hall 0%nat). rewrite Nat.add_0_r in Hall. apply Hall.
      simpl. lia. }
    rewrite persist_row_settles by done. cbn [await].
    match goal with |- context [handleSave _ _ _ _ ?s] =>
      destruct (IH s) as (st' & Hrej & Hreqs) end.
    + cbn [requests]. rewrite length_app, Nat.add_1_r. intros j Hj.
      replace (S (List.length (requests st)) + j)%nat
        with (List.length (requests st) + S j)%nat by lia.
      apply Hall. simpl. lia.
    + exists st'. split; [exact Hrej|]. rewrite Hreqs. cbn [requests].
      by rewrite <- (assoc_L (++)).
Qed.

Lemma handleSave_stops_at_missing_element_witness :
  exists st',
    handleSave world_up "users" [recordA2; draftX] [1%Z; 5%Z; 0%Z]
      (mounted [recordA] [])
    = Rejected st'
    /\ requests st' = [request_for "users" draftX].
Proof.
  destruct (handleSave_stops_at_missing_element world_up "users"
              [recordA2; draftX] [1%Z] [draftX] 5%Z [0%Z]
              (mounted [recordA] []))
    as (st' & Hrej & Hreqs).
  - repeat constructor.
  - reflexivity.
  - by intros j _.
  - exists st'. split; [exact Hrej|exact Hreqs].
Defined.

(** ** Row keys *)

Lemma NoDup_filter_lookup {A} (P : A -> Prop) `{!forall x, Decision (P x)}
    (l : list A) (i j : nat) (x : A) :
  NoDup (filter P l) -> l !! i = Some x -> l !! j = Some x -> P x -> i = j.
Proof.
  revert i j. induction l as [|y l IH]; intros i j Hnd Hi Hj HP; [done|].
  rewrite filter_cons in Hnd.
  assert (forall k, l !! k = Some x -> x ∈ filter P l) as Hin.
  { intros k Hk. apply list_elem_of_filter. split; [done|].
    by eapply list_elem_of_lookup_2. }
  destruct i as [|i], j as [|j]; simpl in *; try done.
  - injection Hi as ->. rewrite decide_True in Hnd by done.
    apply NoDup_cons in Hnd as [Hfresh _]. destruct Hfresh. eauto.
  - injection Hj as ->. rewrite decide_True in Hnd by done.
    apply NoDup_cons in Hnd as [Hfresh _]. destruct Hfresh. eauto.
  - f_equal. apply IH; try done.
    destruct (decide (P y)); [by apply NoDup_cons in Hnd as [_ ?]|done].
Qed.

Lemma NumberToString_of_nat_inj (i j : nat) :
  NumberToString (Z.of_nat i) = NumberToString (Z.of_nat j) -> i = j.
Proof. intros H%NumberToString_inj. lia. Qed.

(** X10. For rows with numeric identifiers, pairwise distinct among the
    persisted ones, the React keys [item.id || index] of the rendered rows
    are pairwise distinct exactly when no persisted row's identifier is the
    index of an unpersisted row. *)
Theorem row_keys_distinct_iff (vals : list JsObject) :
  Forall (fun r => exists n, id_of r = Some (JNum n)) vals ->
  unique_persisted vals ->
  NoDup (row_keys vals) <->
  (forall i j r r',
     vals !! i = Some r -> id_of r = Some SENTINEL ->
     vals !! j = Some r' -> id_of r' <> Some SENTINEL ->
     id_of r' <> Some (JNum (Z.of_nat i))).
Proof.
  intros Hnum Huniq.
  assert (forall i r, vals !! i = Some r ->
            exists n, id_of r = Some (JNum n)
              /\ row_key r i
                 = NumberToString (if bool_decide (n = 0%Z)
                                   then Z.of_nat i else n)) as Hkey.
  { intros i r Hr.
    destruct (proj1 (Forall_forall _ _) Hnum r) as [n Hn];
      [by eapply list_elem_of_lookup_2|].
    exists n. split; [done|]. unfold row_key. rewrite Hn.
    by destruct (bool_decide (n = 0%Z)). }
  unfold row_keys. rewrite NoDup_alt. split.
  - intros Hnd i j r r' Hr Hs Hr' Hp Hcoll.
    destruct (Hkey i r Hr) as (n & Hn & Hk).
    destruct (Hkey j r' Hr') as (n' & Hn' & Hk').
    assert (n = 0%Z) as -> by (unfold SENTINEL in Hs; congruence).
    assert (n' = Z.of_nat i) as -> by congruence.
    assert (Z.of_nat i <> 0%Z) as Hi by (unfold SENTINEL in Hp; congruence).
    rewrite bool_decide_eq_true_2 in Hk by done.
    rewrite bool_decide_eq_false_2 in Hk' by done.
    assert (i = j) as <-.
    { apply (Hnd i j (row_key r i)).
      - by rewrite list_lookup_imap, Hr.
      - rewrite list_lookup_imap, Hr'. simpl. congruence. }
    congruence.
  - intros Hfree i j k Hi Hj.
    rewrite list_lookup_imap in Hi, Hj.
    destruct (vals !! i) as [r|] eqn:Hr; [|done].
    destruct (vals !! j) as [r'|] eqn:Hr'; [|done].
    simpl in Hi, Hj. injection Hi as Hi. injection Hj as Hj.
    destruct (Hkey i r Hr) as (n & Hn & Hk).
    destruct (Hkey j r' Hr') as (n' & Hn' & Hk').
    assert (NumberToString (if bool_decide (n = 0%Z) then Z.of_nat i else n)
            = NumberToString (if bool_decide (n' = 0%Z) then Z.of_nat j else n'))
      as Heq%NumberToString_inj by congruence.
    destruct (decide (n = 0%Z)) as [->|Hn0], (decide (n' = 0%Z)) as [->|Hn0'];
      repeat match type of Heq with
             | context [bool_decide ?P] =>
                 first [rewrite (bool_decide_eq_true_2 P) in Heq by done
                       |rewrite (bool_decide_eq_false_2 P) in Heq by done]
             end.
    + lia.
    + exfalso. apply (Hfree i j r r'); try done; unfold SENTINEL; congruence.
    + exfalso. apply (Hfree j i r' r); try done; unfold SENTINEL; congruence.
    + subst n'.
      apply (NoDup_filter_lookup (fun x => x <> Some SENTINEL)
               (id_of <$> vals) i j (Some (JNum n))); [done|..].
      * by rewrite list_lookup_fmap, Hr; simpl; rewrite Hn.
      * by rewrite list_lookup_fmap, Hr'; simpl; rewrite Hn'.
      * unfold SENTINEL. congruence.
Qed.

(** The first five users of the demo server, then a row from the template:
    the appended row stands at index 5 and record 5 has key "5" too. *)
Lemma row_keys_distinct_iff_witness :
  let loaded := (fun k => [("id", JNum (Z.of_nat k))]) <$> seq 1 5 in
  let vals := loaded ++ [emptyItem userConfig] in
  unique_persisted vals
  /\ row_keys vals = ["1"; "2"; "3"; "4"; "5"; "5"]
  /\ ~ NoDup (row_keys vals)
  /\ NoDup (row_keys loaded).
Proof.
  intros loaded vals.
  assert (unique_persisted vals) as Huniq.
  { vm_compute. repeat constructor; set_solver. }
  assert (Forall (fun r => exists n, id_of r = Some (JNum n)) vals) as Hnum.
  { repeat constructor; eexists; reflexivity. }
  split_and!; [done|by vm_compute| |].
  - rewrite (row_keys_distinct_iff vals Hnum Huniq). intros Hfree.
    apply (Hfree 5%nat 4%nat (emptyItem userConfig) [("id", JNum 5)]);
      by vm_compute.
  - apply (row_keys_distinct_iff loaded).
    + repeat constructor; eexists; reflexivity.
    + vm_compute. repeat constructor; set_solver.
    + intros i j r r' Hr Hs. exfalso.
      do 5 (destruct i as [|i]; [by vm_compute in Hr, Hs; simplify_eq|]).
      done.
Defined.


(** ** Adding a row and saving it *)

Lemma omap_id_None {A} (l : list (option A)) :
  Forall (fun x => x = None) l -> omap id l = [].
Proof. induction 1 as [|x l -> _ IH]; [done|]. exact IH. Qed.

Lemma dirtyRows_appended (its : list JsObject) (row : JsObject) :
  all_persisted its -> id_of row = Some SENTINEL ->
  dirtyRows its (its ++ [row]) = [row].
Proof.
  intros Hall Hs. rewrite dirtyRows_scan, imap_app, omap_app.
  assert (omap id (imap (fun idx item =>
                           if is_unpersisted item || differs its item idx
                           then Some item else None) its) = []) as ->.
  { apply omap_id_None. apply Forall_forall.
    intros x (i & y & -> & Hy)%elem_of_lookup_imap_1.
    rewrite (proj2 (is_unpersisted_false y)).
    - unfold differs. rewrite Hy. by rewrite bool_decide_eq_true_2.
    - apply (proj1 (Forall_forall _ _) Hall). by eapply list_elem_of_lookup_2. }
  simpl. by rewrite (proj2 (is_unpersisted_true row)).
Qed.

(** X24. Adding a row, filling it in and saving: on a page whose form showed
    the store's list, none of whose records carries the sentinel, with the
    added row as the only change, a save whose call settles sends exactly
    one request, the POST for that row; the store appends the row under the
    clock reading as identifier; the table renders with the longer list and
    the form is re-initialised from it, so the Edit Buffer is the store's
    list, the added row shows its new identifier, and nothing is dirty. *)
Theorem append_and_save_creates_once (w : World) (cfg : CrudConfig)
    (st : State) (row : JsObject) :
  let now := Date_now w (S (List.length (requests st))) in
  values st = items st ++ [row] -> initialValues st = items st ->
  all_persisted (items st) -> id_of row = Some SENTINEL -> now <> 0%Z ->
  respond w (List.length (requests st)) <> NetworkError ->
  let st' := save w cfg st in
  requests st'
  = requests st
    ++ [mkRequest POST (API_URL +:+ "/" +:+ apiEndpoint cfg)
          (Some (JSON_stringify row))]
  /\ items st' = items st ++ [set_prop "id" (JNum now) row]
  /\ values st' = items st'
  /\ initialValues st' = items st'
  /\ dirtyIndexes (items st') (values st') = []
  /\ toasts st' = toasts st ++ [toast_success "Saved 1 item(s)"].
Proof.
  intros now Hvals Hinit Hall Hs Hnow Hres st'.
  pose proof (dirtyRows_appended (items st) row Hall Hs) as Hrows.
  rewrite <- Hvals in Hrows.
  assert (dirtyIndexes (items st) (values st) <> []) as HD.
  { intros HD. pose proof (dirtyRows_length (items st) (values st)) as Hlen.
    by rewrite Hrows, HD in Hlen. }
  destruct (save_settled w cfg st HD) as (Hreqs & Hi & Hv & Hinit' & Ht & _).
  { rewrite Hrows. intros [|j] Hj; [by rewrite Nat.add_0_r|simpl in Hj; lia]. }
  fold st' in Hreqs, Hi, Hv, Hinit', Ht.
  rewrite Hrows in Hreqs, Hi, Hv, Hinit'.
  rewrite <- (dirtyRows_length (items st) (values st)), Hrows in Ht.
  cbn [persisted List.length fmap list_fmap] in Hreqs, Hi, Hv, Hinit'.
  unfold store_effect, request_for in Hreqs, Hi, Hv, Hinit'.
  rewrite (proj2 (is_unpersisted_true row)) in Hreqs, Hi, Hv, Hinit' by done.
  fold now in Hi, Hv, Hinit'.
  assert (isEqual (values st) (items st ++ [set_prop "id" (JNum now) row])
          = false) as Hne.
  { destruct (isEqual _ _) eqn:Heq; [|done]. exfalso.
    assert (isEqual_object row (set_prop "id" (JNum now) row) = true) as Hobj.
    { apply (isEqual_lookup _ _ (List.length (items st)) _ _ Heq).
      - rewrite Hvals. by apply list_lookup_middle.
      - by apply list_lookup_middle. }
    apply id_of_isEqual in Hobj; [|by rewrite Hs].
    rewrite id_of_set_id, Hs in Hobj. unfold SENTINEL in Hobj. congruence. }
  rewrite Hne in Hv, Hinit'.
  split_and!; try done; [by rewrite Hv, Hi|by rewrite Hinit', Hi|].
  rewrite Hv, Hi. apply dirtyIndexes_clean. intros i r Hr.
  apply not_row_dirty. split; [|done].
  apply lookup_app_Some in Hr as [Hr|[_ Hr]].
  - apply (proj1 (Forall_forall _ _) Hall). by eapply list_elem_of_lookup_2.
  - apply list_lookup_singleton_Some in Hr as [_ <-].
    rewrite id_of_set_id. unfold SENTINEL. congruence.
Qed.

Lemma append_and_save_creates_once_witness :
  let st := mounted [ann; bob] [ann; bob; cara_draft] in
  let st' := save world_up userConfig st in
  requests st' = [request_for "users" cara_draft]
  /\ items st' = [ann; bob; set_prop "id" (JNum 1700000000001) cara_draft]
  /\ values st' = items st'
  /\ dirtyIndexes (items st') (values st') = [].
Proof.
  intros st st'.
  destruct (append_and_save_creates_once world_up userConfig st cara_draft)
    as (Hreqs & Hitems & Hvals & _ & Hdirty & _);
    [done|done|repeat constructor; done|done|done|done|].
  split_and!; [exact Hreqs|exact Hitems|exact Hvals|exact Hdirty].
Defined.

(** ** A prompt answered late *)


(** * The page's early returns *)

(** X11. The page shows its tables only when both loads have left a list:
    while either store is loading it shows the loading view, and once both
    loads have run it shows the tabs if each list request was answered with
    an array and each transformer returned, and the panel "Failed to fetch"
    otherwise, that is when a fetch threw, a body could not be read as an
    array, or a transformer threw. Each store has then sent its one request
    and holds the list its load left. *)
Theorem page_view_after_loads (wu wp : World)
    (tu tp : option (list JsObject -> option (list JsObject))) :
  let su := load wu userConfig tu initial_state in
  let sp := load wp productConfig tp initial_state in
  CrudPage_view initial_state initial_state = ViewLoading
  /\ CrudPage_view su initial_state = ViewLoading
  /\ CrudPage_view initial_state sp = ViewLoading
  /\ CrudPage_view su sp
     = match loaded_list wu 0 tu, loaded_list wp 0 tp with
       | Some _, Some _ => ViewTabs
       | _, _ => ViewError "Failed to fetch"
       end
  /\ items su = default [] (loaded_list wu 0 tu)
  /\ items sp = default [] (loaded_list wp 0 tp)
  /\ List.length (requests su) = 1%nat
  /\ List.length (requests sp) = 1%nat.
Proof.
  intros su sp. subst su sp. unfold load, fetchItems, fetch, loaded_list.
  cbn [requests initial_state List.length].
  destruct (respond wu 0) as [| |du], (respond wp 0) as [| |dp];
    try destruct (transformed tu du); try destruct (transformed tp dp);
    cbn; split_and!; done.
Qed.

(** * lib/utils/formik and the row's error cell *)

(** X12. [getFieldError] reports a message exactly when the index holds both
    an errors object and a touched object, the field is touched and its
    error is a string, which it returns, the empty string too;
    [hasFieldError] holds exactly when that message is not empty. An
    untouched field, a missing index or an absent array never reports. *)
Theorem getFieldError_reports_touched_messages
    (errors : option (list (option ItemErrors)))
    (touched : option (list (option ItemTouched))) (index : nat)
    (fieldName : string) :
  (forall s,
     getFieldError errors touched index fieldName = Some s <->
     exists itemErrors itemTouched,
       optional_index errors index = Some itemErrors
       /\ optional_index touched index = Some itemTouched
       /\ itemTouched !! fieldName = Some true
       /\ itemErrors !! fieldName = Some (ErrorMessage s))
  /\ (hasFieldError errors touched index fieldName = true <->
      exists s, getFieldError errors touched index fieldName = Some s
                /\ s <> "").
Proof.
  split.
  - intros s. unfold getFieldError.
    destruct (optional_index errors index) as [ie|];
      destruct (optional_index touched index) as [it|];
      try (split; [done|by intros (? & ? & ? & ? & _)]).
    destruct (it !! fieldName) as [[|]|] eqn:Ht;
      destruct (ie !! fieldName) as [[m|]|] eqn:He;
      (split; [intros [= <-]; eauto 10|intros (? & ? & ? & ? & ? & ?)]);
      simplify_eq; done.
  - unfold hasFieldError.
    destruct (getFieldError errors touched index fieldName) as [s|].
    + rewrite negb_true_iff, bool_decide_eq_false. split; [eauto|].
      by intros (? & [= <-] & ?).
    + split; [done|by intros (? & ? & _)].
Qed.

(** X13. The row's own error cell and the helpers agree: for arrays of errors
    and of touched flags, [CrudTableRow] shows the message [s] for a field
    exactly when [getFieldError] returns [s] and [s] is not empty, so a
    message is shown exactly when [hasFieldError] holds; when [errors.items]
    is not an array the row shows nothing. *)
Theorem row_error_cell_agrees_with_helpers
    (errs : list (option ItemErrors)) (tchd : list (option ItemTouched))
    (index : nat) (fieldName : string) :
  (forall s,
     row_fieldError (IsArray errs) (IsArray tchd) index fieldName
     = Some (ErrorMessage s) <->
     getFieldError (Some errs) (Some tchd) index fieldName = Some s
     /\ s <> "")
  /\ (hasFieldError (Some errs) (Some tchd) index fieldName = true <->
      exists s, row_fieldError (IsArray errs) (IsArray tchd) index fieldName
                = Some (ErrorMessage s))
  /\ row_fieldError NotAnArray (IsArray tchd) index fieldName = None.
Proof.
  assert (forall s,
     row_fieldError (IsArray errs) (IsArray tchd) index fieldName
     = Some (ErrorMessage s) <->
     getFieldError (Some errs) (Some tchd) index fieldName = Some s
     /\ s <> "") as Hagree.
  { intros s. unfold row_fieldError, getFieldError, array_item.
    destruct (optional_index (Some errs) index) as [ie|];
      destruct (optional_index (Some tchd) index) as [it|]; simpl;
      try (split; [done|by intros [? _]]).
    - destruct (it !! fieldName) as [[|]|]; destruct (ie !! fieldName) as [[m|]|];
        simpl; try (split; [done|by intros [? _]]).
      case_bool_decide as Hm; simpl.
      + split; [done|]. intros [[= <-] ?]. done.
      + split; [by intros [= <-]|by intros [[= <-] _]].
    - destruct (it !! fieldName) as [[|]|]; split; (done || by intros [? _]). }
  split_and!; [exact Hagree| |].
  - unfold hasFieldError.
    destruct (getFieldError (Some errs) (Some tchd) index fieldName) as [s|] eqn:Hg.
    + rewrite negb_true_iff, bool_decide_eq_false. split.
      * intros Hs. exists s. by apply Hagree.
      * intros [s' [Hs' ?]%Hagree]. congruence.
    + split; [done|]. intros [s' [Hs' _]%Hagree]. congruence.
  - unfold row_fieldError.
    by destruct (array_item (IsArray tchd) index ≫= _) as [[|]|] eqn:E.
Qed.

(** * The cookie routes *)

Lemma set_cookies_parsed (NODE_ENV : option string) (body : option Json)
    (jar : CookieJar) (props : gmap string Json) :
  body ≫= own_properties = Some props ->
  set_cookies_POST NODE_ENV body jar
  = (match props !! "refreshToken" with
     | Some token =>
         if Json_truthy token
         then <["refresh_token" := refresh_cookie NODE_ENV token]> jar
         else jar
     | None => jar
     end,
     mkRouteResponse 200
       (delete "refreshToken" props
        ∪ {[ "success" := JsonBool true;
             "message" := JsonString "Cookies set successfully" ]})).
Proof. unfold set_cookies_POST. by intros ->. Qed.

(** X14. The set-cookies route never returns the refresh token: its answer
    has no [refreshToken] field. Every other field of the request body is
    echoed as sent, [success] and [message] included, which the route's own
    values fill in only when the body has none; a body that cannot be read
    or is [null] is answered with status 500. *)
Theorem set_cookies_never_echoes_token (NODE_ENV : option string)
    (body : option Json) (jar : CookieJar) :
  let r := (set_cookies_POST NODE_ENV body jar).2 in
  response_json r !! "refreshToken" = None
  /\ match body ≫= own_properties with
     | Some props =>
         response_status r = 200%nat
         /\ (forall k v, k <> "refreshToken" -> props !! k = Some v ->
               response_json r !! k = Some v)
         /\ (props !! "success" = None ->
             response_json r !! "success" = Some (JsonBool true))
         /\ (props !! "message" = None ->
             response_json r !! "message"
             = Some (JsonString "Cookies set successfully"))
     | None =>
         response_status r = 500%nat
         /\ response_json r !! "success" = Some (JsonBool false)
     end.
Proof.
  intros r. subst r.
  destruct (body ≫= own_properties) as [props|] eqn:Hbody.
  - rewrite (set_cookies_parsed _ _ _ props Hbody).
    cbn [snd response_json response_status]. split_and!.
    + apply lookup_union_None. split; [by rewrite lookup_delete_eq|done].
    + done.
    + intros k v Hk Hv. apply lookup_union_Some_l.
      by rewrite lookup_delete_ne.
    + intros Hnone. rewrite lookup_union_r; [done|].
      by rewrite lookup_delete_ne.
    + intros Hnone. rewrite lookup_union_r; [done|].
      by rewrite lookup_delete_ne.
  - unfold set_cookies_POST. rewrite Hbody. done.
Qed.

(** X15. The set-cookies route writes the [refresh_token] cookie only when
    the body's [refreshToken] is truthy, and then as an HTTP-only,
    same-site-strict cookie for path "/" living 2,592,000 seconds, marked
    secure exactly in production; no other cookie of the jar changes, and a
    request without a usable token leaves the jar as it was. *)
Theorem set_cookies_writes_one_cookie (NODE_ENV : option string)
    (body : option Json) (jar : CookieJar) :
  let jar' := (set_cookies_POST NODE_ENV body jar).1 in
  (forall name, name <> "refresh_token" -> jar' !! name = jar !! name)
  /\ match (body ≫= own_properties)
             ≫= (fun props : gmap string Json => props !! "refreshToken") with
     | Some token =>
         if Json_truthy token
         then jar' !! "refresh_token"
              = Some (mkCookie token true
                        (bool_decide (NODE_ENV = Some "production"))
                        Strict "/" 2592000)
         else jar' = jar
     | None => jar' = jar
     end.
Proof.
  intros jar'. subst jar'.
  destruct (body ≫= own_properties) as [props|] eqn:Hbody; simpl.
  - rewrite (set_cookies_parsed _ _ _ props Hbody). cbn [fst].
    destruct (props !! "refreshToken") as [token|]; [|done].
    destruct (Json_truthy token); [|done]. split.
    + intros name Hname. by rewrite lookup_insert_ne.
    + by rewrite lookup_insert_eq.
  - unfold set_cookies_POST. rewrite Hbody. done.
Qed.

(** X16. Clearing after setting is clearing: whatever the set-cookies route
    stored, after the clear-cookies route the jar is the one clearing alone
    gives, with a [refresh_token] cookie of empty value and zero lifetime;
    clearing twice is clearing once. *)
Theorem clear_cookies_overrides_set (NODE_ENV : option string)
    (body : option Json) (jar : CookieJar) :
  let cleared := (clear_cookies_POST NODE_ENV jar).1 in
  (clear_cookies_POST NODE_ENV (set_cookies_POST NODE_ENV body jar).1).1
  = cleared
  /\ (clear_cookies_POST NODE_ENV cleared).1 = cleared
  /\ (cookie_value <$> cleared !! "refresh_token") = Some (JsonString "")
  /\ (maxAge <$> cleared !! "refresh_token") = Some 0%Z
  /\ (forall name, name <> "refresh_token" -> cleared !! name = jar !! name).
Proof.
  intros cleared. subst cleared. unfold clear_cookies_POST. cbn [fst].
  split_and!.
  - destruct (body ≫= own_properties) as [props|] eqn:Hbody.
    + rewrite (set_cookies_parsed _ _ _ props Hbody). cbn [fst].
      destruct (props !! "refreshToken") as [token|]; [|done].
      destruct (Json_truthy token); [|done]. by rewrite insert_insert_eq.
    + unfold set_cookies_POST. by rewrite Hbody.
  - by rewrite insert_insert_eq.
  - by rewrite lookup_insert_eq.
  - by rewrite lookup_insert_eq.
  - intros name Hname. by rewrite lookup_insert_ne.
Qed.

(** * The GraphQL proxy route *)

Section graphql_proxy_facts.
Variable JSON_text : Json -> string.
Variable upstream : UpstreamCall -> UpstreamResult.

Lemma forwards_token_test (authorization : option string) (b : Json)
    (operationName : option Json) :
  operationName_of b = Some operationName ->
  nonempty authorization
  && from_option Json_truthy false operationName
  && from_option protected_includes false operationName = true
  <-> forwards_token authorization b.
Proof.
  intros Hb. unfold forwards_token, nonempty, truthy_string.
  rewrite !andb_true_iff. split.
  - intros [[Ha _] Hs]. destruct authorization as [a|]; [|done].
    destruct operationName as [[| | |s| |]|]; try done. simpl in Hs.
    apply bool_decide_eq_true in Hs.
    apply negb_true_iff, bool_decide_eq_false in Ha. eauto 10.
  - intros (a & s & -> & Ha & Hop & Hs). rewrite Hb in Hop.
    injection Hop as ->. simpl. split_and!.
    + by apply negb_true_iff, bool_decide_eq_false.
    + apply negb_true_iff, bool_decide_eq_false. intros ->.
      vm_compute in Hs. set_solver.
    + by apply bool_decide_eq_true.
Qed.

(** The upstream call of a configured proxy on a readable body. *)
Lemma graphql_POST_call (uri key : string) (b : Json)
    (authorization : option string) :
  uri <> "" -> key <> "" -> b <> JsonNull ->
  exists headers,
    (graphql_POST JSON_text upstream (Some uri) (Some key) (Some b)
       authorization).1
    = Some (mkUpstreamCall uri headers (JSON_text b))
    /\ ((forwards_token authorization b
         /\ headers = <["Authorization" := default "" authorization]>
                        {[ "Content-Type" := "application/json" ]})
        \/ (~ forwards_token authorization b
            /\ headers = <["x-api-key" := key]>
                           {[ "Content-Type" := "application/json" ]})).
Proof.
  intros Huri Hkey Hb.
  destruct (operationName_of b) as [operationName|] eqn:Hop;
    [|by destruct b].
  pose proof (forwards_token_test authorization b operationName Hop) as Htest.
  unfold graphql_POST.
  replace (negb (nonempty (Some uri)) || negb (nonempty (Some key)))
    with false
    by (unfold nonempty, truthy_string;
        by rewrite !bool_decide_eq_false_2 by done).
  cbn [mbind option_bind]. rewrite Hop.
  cbn [fmap option_fmap option_map].
  destruct (nonempty authorization
            && from_option Json_truthy false operationName
            && from_option protected_includes false operationName) eqn:Hcond.
  - eexists. split; [by repeat case_match|].
    left. split; [by apply Htest|done].
  - eexists. split; [by repeat case_match|].
    right. split; [|done]. intros Hf%Htest. done.
Qed.

(** X17. A request the proxy sends upstream goes to the configured URI with
    the re-serialised body and carries exactly one credential: the caller's
    [Authorization] header, verbatim, when that header is not empty and the
    operation name is one of the protected ones, and the configured API key
    otherwise. It never carries both, and a caller's token is never sent
    along with a public operation. *)
Theorem proxy_sends_exactly_one_credential (GRAPHQL_URI GRAPHQL_API_KEY : option string)
    (body : option Json) (authorization : option string)
    (call : UpstreamCall) :
  (graphql_POST JSON_text upstream GRAPHQL_URI GRAPHQL_API_KEY body
     authorization).1 = Some call ->
  exists uri key b,
    GRAPHQL_URI = Some uri /\ GRAPHQL_API_KEY = Some key /\ body = Some b
    /\ call_uri call = uri /\ call_body call = JSON_text b
    /\ call_headers call !! "Content-Type" = Some "application/json"
    /\ (forwards_token authorization b ->
        call_headers call !! "Authorization" = authorization
        /\ call_headers call !! "x-api-key" = None)
    /\ (~ forwards_token authorization b ->
        call_headers call !! "Authorization" = None
        /\ call_headers call !! "x-api-key" = Some key).
Proof.
  intros Hcall.
  destruct GRAPHQL_URI as [uri|], GRAPHQL_API_KEY as [key|]; try done.
  destruct (decide (uri = "")) as [->|Huri].
  { unfold graphql_POST in Hcall. by destruct key. }
  destruct (decide (key = "")) as [->|Hkey].
  { unfold graphql_POST, nonempty, truthy_string in Hcall.
    rewrite (bool_decide_eq_false_2 (uri = "")) in Hcall by done. done. }
  assert (negb (nonempty (Some uri)) || negb (nonempty (Some key)) = false)
    as Hconf.
  { unfold nonempty, truthy_string.
    by rewrite !bool_decide_eq_false_2 by done. }
  destruct body as [b|];
    [|by unfold graphql_POST in Hcall; rewrite Hconf in Hcall].
  assert (b <> JsonNull) as Hb.
  { intros ->. unfold graphql_POST in Hcall. by rewrite Hconf in Hcall. }
  destruct (graphql_POST_call uri key b authorization Huri Hkey Hb)
    as (headers & Hsent & Hheaders).
  rewrite Hsent in Hcall. injection Hcall as <-.
  exists uri, key, b. cbn [call_uri call_body call_headers].
  destruct Hheaders as [[Hf ->]|[Hf ->]]; split_and!; try done.
  intros _. destruct Hf as (a & s & -> & _). simpl. split; done.
Qed.

(** X18. The proxy hands the upstream answer back as it came, status and
    text, whenever a response can carry them; an upstream status outside
    200..599 or a null-body status (204, 205, 304), like an upstream that
    throws, is answered with status 500 and "Internal server error". The
    status of the proxy's answer is always between 200 and 599. *)
Theorem proxy_passes_upstream_answer_through
    (GRAPHQL_URI GRAPHQL_API_KEY : option string) (body : option Json)
    (authorization : option string) :
  let r := graphql_POST JSON_text upstream GRAPHQL_URI GRAPHQL_API_KEY body
             authorization in
  (200 <= proxy_status r.2 <= 599)%nat
  /\ match r.1 with
     | Some call =>
         match upstream call with
         | UpstreamResponds code payload =>
             if Response_constructible code
             then r.2 = mkProxyResponse code (TextBody payload)
             else r.2 = mkProxyResponse 500 (ErrorsBody "Internal server error")
         | UpstreamThrows =>
             r.2 = mkProxyResponse 500 (ErrorsBody "Internal server error")
         end
     | None => proxy_status r.2 = 500%nat
     end.
Proof.
  intros r. subst r. unfold graphql_POST.
  destruct GRAPHQL_URI as [uri|], GRAPHQL_API_KEY as [key|];
    try (cbn; split; [lia|done]).
  destruct (negb _ || negb _); [cbn; split; [lia|done]|].
  destruct (body ≫= _) as [[b operationName]|]; [|cbn; split; [lia|done]].
  cbn zeta.
  match goal with |- context [upstream ?c] =>
    destruct (upstream c) as [|code payload] eqn:Hup end.
  - cbn [fst snd]. rewrite Hup. cbn. split; [lia|done].
  - destruct (Response_constructible code) eqn:Hcode; cbn [fst snd];
      rewrite Hup, Hcode; cbn; (split; [|done]); [|lia].
    unfold Response_constructible in Hcode.
    apply andb_prop in Hcode as [[H1%Nat.leb_le H2%Nat.leb_le]%andb_prop _].
    lia.
Qed.

(** X19. The proxy contacts the upstream exactly when both settings are
    present and not empty and the request body is readable JSON other than
    [null]; a missing or empty setting is answered "Server configuration
    error" without the body being looked at. *)
Theorem proxy_calls_upstream_iff_configured
    (GRAPHQL_URI GRAPHQL_API_KEY : option string) (body : option Json)
    (authorization : option string) :
  let r := graphql_POST JSON_text upstream GRAPHQL_URI GRAPHQL_API_KEY body
             authorization in
  (is_Some r.1 <->
   nonempty GRAPHQL_URI = true /\ nonempty GRAPHQL_API_KEY = true
   /\ exists b, body = Some b /\ b <> JsonNull)
  /\ (nonempty GRAPHQL_URI = false \/ nonempty GRAPHQL_API_KEY = false ->
      r = (None, mkProxyResponse 500 (ErrorsBody "Server configuration error"))).
Proof.
  intros r. subst r. unfold graphql_POST, nonempty.
  destruct GRAPHQL_URI as [uri|], GRAPHQL_API_KEY as [key|];
    try (split; [split; [by intros [? [=]]|by intros (? & ? & _)]|done]).
  destruct (truthy_string (Some uri)) eqn:Hu; cbn [negb orb];
    [|split; [split; [by intros [? [=]]|by intros (? & _)]|done]].
  destruct (truthy_string (Some key)) eqn:Hk; cbn [negb orb];
    [|split; [split; [by intros [? [=]]|by intros (_ & ? & _)]|done]].
  split; [|by intros [?|?]].
  destruct body as [b|]; cbn [mbind option_bind].
  - destruct (operationName_of b) as [operationName|] eqn:Hop;
      cbn [fmap option_fmap option_map].
    + split.
      * intros _. split_and!; [done..|]. exists b. split; [done|].
        by intros ->.
      * intros _. by repeat case_match.
    + split; [by intros [? [=]]|]. intros (_ & _ & b' & [= <-] & Hb).
      by destruct b.
  - split; [by intros [? [=]]|]. by intros (_ & _ & ? & ? & _).
Qed.
End graphql_proxy_facts.

(** A [Me] query with a bearer token, through a configured proxy: the call
    carries the token and no API key. *)
Lemma proxy_sends_exactly_one_credential_witness :
  let sent :=
    mkUpstreamCall "https://erp.example/graphql"
      (<["Authorization" := "Bearer abc"]>
         {[ "Content-Type" := "application/json" ]}) "Me" in
  (graphql_POST name_only_text upstream_ok (Some "https://erp.example/graphql")
     (Some "key-1") (Some me_request) (Some "Bearer abc")).1 = Some sent
  /\ call_headers sent !! "Authorization" = Some "Bearer abc"
  /\ call_headers sent !! "x-api-key" = None.
Proof.
  intros sent.
  assert ((graphql_POST name_only_text upstream_ok
             (Some "https://erp.example/graphql") (Some "key-1")
             (Some me_request) (Some "Bearer abc")).1 = Some sent) as Hsent
    by (vm_compute; reflexivity).
  assert (forwards_token (Some "Bearer abc") me_request) as Hf.
  { exists "Bearer abc", "Me". split_and!; [done|done|by vm_compute|].
    unfold PROTECTED_OPERATIONS. set_solver. }
  split; [exact Hsent|].
  destruct (proxy_sends_exactly_one_credential name_only_text upstream_ok
              _ _ _ _ _ Hsent)
    as (uri & key & b & _ & _ & [= <-] & _ & _ & _ & Hyes & _).
  exact (Hyes Hf).
Defined.

(** * The link of the server-side Apollo client *)

(** X20. The server-side client attaches the API key only when it talks to
    the GraphQL server directly: the [x-api-key] header is present exactly
    when the process is not in production, [GRAPHQL_URI] is set to something
    other than the proxy path and the key is not empty. In production, and
    whenever the target is the proxy path "/api/graphql", no key is sent. *)
Theorem server_link_key_only_when_direct
    (NODE_ENV GRAPHQL_URI GRAPHQL_API_KEY : option string) :
  let '(uri, headers) := server_link NODE_ENV GRAPHQL_URI GRAPHQL_API_KEY in
  (forall k, headers !! "x-api-key" = Some k <->
     NODE_ENV <> Some "production"
     /\ GRAPHQL_URI = Some uri /\ uri <> "" /\ uri <> PROXY_PATH
     /\ GRAPHQL_API_KEY = Some k /\ k <> "")
  /\ (uri = PROXY_PATH -> headers !! "x-api-key" = None)
  /\ (NODE_ENV = Some "production" -> uri = PROXY_PATH)
  /\ headers !! "Content-Type" = Some "application/json".
Proof.
  assert (({[ "Content-Type" := "application/json" ]} : gmap string string)
            !! "x-api-key" = None) as Hbase by done.
  unfold server_link, in_production, nonempty, truthy_string.
  destruct (bool_decide (NODE_ENV = Some "production")) eqn:Hprod.
  - apply bool_decide_eq_true in Hprod. cbn [negb andb bool_decide].
    rewrite bool_decide_eq_true_2 by done. cbn [negb andb].
    split_and!; try done. intros k. rewrite Hbase.
    split; [done|]. by intros (? & _).
  - apply bool_decide_eq_false in Hprod.
    destruct GRAPHQL_URI as [u|]; cbn [from_option negb]; unfold id.
    2:{ rewrite bool_decide_eq_true_2 by done. cbn [negb andb].
        split_and!; try done. intros k. rewrite Hbase. split; [done|].
        by intros (_ & ? & _). }
    destruct (bool_decide (u = "")) eqn:Hu; cbn [negb].
    { apply bool_decide_eq_true in Hu. subst u.
      rewrite bool_decide_eq_true_2 by done. cbn [negb andb].
      split_and!; try done. intros k. rewrite Hbase. split; [done|].
      by intros (_ & [= <-] & _ & ? & _). }
    apply bool_decide_eq_false in Hu.
    destruct (bool_decide (u = PROXY_PATH)) eqn:Hpath; cbn [negb andb].
    { apply bool_decide_eq_true in Hpath. split_and!; try done.
      intros k. rewrite Hbase. split; [done|].
      by intros (_ & _ & _ & ? & _). }
    apply bool_decide_eq_false in Hpath.
    destruct GRAPHQL_API_KEY as [key|]; cbn [from_option andb]; unfold id.
    2:{ split_and!; try done. intros k. rewrite Hbase. split; [done|].
        by intros (_ & _ & _ & _ & ? & _). }
    destruct (bool_decide (key = "")) eqn:Hkey; cbn [negb andb].
    + apply bool_decide_eq_true in Hkey. subst key.
      split_and!; try done. intros k. rewrite Hbase. split; [done|].
      by intros (_ & _ & _ & _ & [= <-] & ?).
    + apply bool_decide_eq_false in Hkey. split_and!; try done.
      intros k. rewrite lookup_insert_eq. split.
      * intros [= <-]. done.
      * by intros (_ & _ & _ & _ & [= <-] & _).
Qed.

(** * The error link of the browser client *)

Lemma errorLink_run_cons (wd : bool) (ev : LinkEvent) (evs : list LinkEvent)
    (g : LinkState) :
  errorLink_run wd (ev :: evs) g
  = ((errorLink_run wd evs (errorLink_step wd ev g).1).1,
     (errorLink_step wd ev g).2
     ++ (errorLink_run wd evs (errorLink_step wd ev g).1).2).
Proof.
  cbn [errorLink_run]. destruct (errorLink_step wd ev g) as [g1 out1].
  cbn [fst snd]. by destruct (errorLink_run wd evs g1).
Qed.

(** X21. Over any sequence of emissions, the error link hands a result on to
    the observer exactly when the result holds no authentication error (code
    UNAUTHENTICATED, or a message mentioning "Unauthorized", "Token expired"
    or "Invalid token"), and then unchanged; a result with such an error
    never reaches the observer's [next]. *)
Theorem errorLink_delivers_only_clean_results (wd : bool)
    (evs : list LinkEvent) (g : LinkState) (op : Operation)
    (result : OperationResult) :
  ObserverNext op result ∈ (errorLink_run wd evs g).2 <->
  EmitNext op result ∈ evs /\ first_auth_error result = None.
Proof.
  revert g. induction evs as [|ev evs IH]; intros g.
  - cbn. split; [by intros ?%elem_of_nil|by intros [?%elem_of_nil _]].
  - rewrite errorLink_run_cons. cbn [snd].
    rewrite elem_of_app, IH, elem_of_cons.
    assert (ObserverNext op result ∈ (errorLink_step wd ev g).2 <->
            ev = EmitNext op result /\ first_auth_error result = None) as ->.
    { destruct ev as [op' r'|op'|op']; cbn.
      - unfold errorLink_next.
        destruct (first_auth_error r') as [err|] eqn:Herr.
        + split; [|intros [[= -> ->] ?]; congruence].
          repeat case_match; cbn; set_solver.
        + cbn. rewrite list_elem_of_singleton. split.
          * by intros [= -> ->].
          * by intros [[= -> ->] _].
      - rewrite !elem_of_cons. split; [|by intros [? _]].
        intros [?|[?|?%elem_of_nil]]; done.
      - rewrite list_elem_of_singleton. split; [done|by intros [? _]]. }
    split; [intros [[-> ?]|[? ?]]; auto|intros [[->|?] ?]; auto].
Qed.

(** X22. Once set, [isRefreshing] is never reset, and the queue of pending
    requests is never replayed: after any sequence of emissions the flag is
    set if it was or if some operation other than the refresh mutation came
    back with an authentication error, and the queue is the old queue
    followed by those operations in order of arrival, the first of them left
    out when the flag was not set before. *)
Theorem errorLink_never_leaves_refreshing (wd : bool) (evs : list LinkEvent)
    (g : LinkState) :
  let g' := (errorLink_run wd evs g).1 in
  isRefreshing g'
  = (isRefreshing g || negb (bool_decide (auth_failed evs = [])))
  /\ pendingRequests g'
     = pendingRequests g
       ++ (if isRefreshing g then auth_failed evs else tail (auth_failed evs)).
Proof.
  revert g. induction evs as [|ev evs IH]; intros g; cbn zeta.
  - cbn. rewrite orb_false_r. split; [done|].
    destruct (isRefreshing g); by rewrite app_nil_r.
  - rewrite errorLink_run_cons. cbn [fst].
    destruct (IH (errorLink_step wd ev g).1) as [Hflag Hqueue].
    rewrite Hflag, Hqueue. clear IH Hflag Hqueue.
    destruct ev as [op r|op|op]; cbn [errorLink_step fst auth_failed omap list_omap];
      fold (auth_failed evs); try done.
    unfold errorLink_next.
    destruct (first_auth_error r) as [err|]; cbn [from_option andb fst];
      [|done].
    destruct (bool_decide (operationName op = Some "RefreshAuthTokens"));
      cbn [negb fst]; [done|].
    destruct (isRefreshing g) eqn:Hg; cbn [fst isRefreshing pendingRequests tail].
    + split; [done|]. by rewrite <- (assoc_L (++)).
    + split; [|done].
      by rewrite (bool_decide_eq_false_2 (op :: auth_failed evs = [])).
Qed.
